(** * The Magento REST client: authenticated request runtime, endpoint
      routing and the store configuration cache

    A shallow embedding of [magento/clients.py] (classes [Client] and
    [Store]).  Methods that assign attributes or talk to the network are
    functions in a state-and-exception monad over a [World]: the client
    object, the cache dictionary of its store, and the record of what has
    been sent and logged so far. *)

From Stdlib Require Import ZArith Lia List String Ascii Bool.
From stdpp Require Import gmap strings list fin_maps.
Import ListNotations.

Local Open Scope string_scope.

(** ** Python string primitives

    [str.lower], [str.upper] and the substring test [a in b], on ASCII
    text (endpoint names and HTTP methods). *)

Module Py.

(** [str.lower] and [str.upper] on ASCII text: the letters [a-z] and [A-Z]
    change case and every other character is kept.  The endpoints and
    the request methods that the client compares them with are ASCII
    literals. *)
Definition lower_ascii (c : ascii) : ascii :=
  let n := nat_of_ascii c in
  if Nat.leb 65 n && Nat.leb n 90 then ascii_of_nat (n + 32) else c.

Definition upper_ascii (c : ascii) : ascii :=
  let n := nat_of_ascii c in
  if Nat.leb 97 n && Nat.leb n 122 then ascii_of_nat (n - 32) else c.

Fixpoint lower (s : string) : string :=
  match s with
  | EmptyString => EmptyString
  | String c s' => String (lower_ascii c) (lower s')
  end.

Fixpoint upper (s : string) : string :=
  match s with
  | EmptyString => EmptyString
  | String c s' => String (upper_ascii c) (upper s')
  end.

(** [contains sub s] is Python's [sub in s]. *)
Fixpoint contains (sub s : string) : bool :=
  String.prefix sub s ||
  match s with
  | EmptyString => false
  | String _ s' => contains sub s'
  end.

(** [s.replace(old, new)] for a non-empty [old]: occurrences are replaced
    from the left and do not overlap; [skip] counts the characters of a
    replaced occurrence still to be dropped. *)
Fixpoint replace_from (old new : string) (skip : nat) (s : string) : string :=
  match s with
  | EmptyString => EmptyString
  | String c s' =>
      match skip with
      | S k => replace_from old new k s'
      | O =>
          if String.prefix old s
          then new ++ replace_from old new (String.length old - 1) s'
          else String c (replace_from old new 0 s')
      end
  end.

Definition replace (old new s : string) : string := replace_from old new 0 s.

(** Truthiness of an [Optional[str]]: [None] and [''] are false. *)
Definition truthy (v : option string) : bool :=
  match v with
  | Some (String _ _) => true
  | _ => false
  end.

(** [f'{v}'] for an [Optional[str]]. *)
Definition format (v : option string) : string :=
  match v with
  | Some s => s
  | None => "None"
  end.

(** An instance attribute that may never have been assigned: [None] is
    "no such attribute" ([hasattr] is false), [Some v] is the value, which
    can itself be Python's [None]. *)
Definition attr (A : Type) : Type := option (option A).

Definition hasattr {A} (x : attr A) : bool :=
  match x with Some _ => true | None => false end.

(** [not hasattr(self, name) or self.name is None] *)
Definition missing {A} (x : attr A) : bool :=
  match x with Some (Some _) => false | _ => true end.

(** [sorted(l, key=key)]: a stable sort, the earlier of two equal keys
    stays first. *)
Fixpoint insert_sorted {A} (key : A → Z) (x : A) (l : list A) : list A :=
  match l with
  | [] => [x]
  | y :: l' => if (key x <=? key y)%Z then x :: y :: l'
               else y :: insert_sorted key x l'
  end.

Definition sorted {A} (key : A → Z) (l : list A) : list A :=
  foldr (insert_sorted key) [] l.

End Py.

(** ** Data *)

(** JSON payloads of requests. *)
#[local] Set Warnings "-register-all".
Inductive JSON :=
| JNull
| JBool (b : bool)
| JNum (n : Z)
| JStr (s : string)
| JList (l : list JSON)
| JObject (items : list (string * JSON)).
#[local] Set Warnings "register-all".

Definition dict : Type := list (string * JSON).

Definition Headers : Type := list (string * string).

(** What goes on the wire: [requests.post(url, json, headers)], used by
    the login step only, and [self.session.request(method, url, json,
    headers)], used by every authorized call. *)
Inductive Request :=
| requests_post (url : string) (json : list (string * option string))
    (headers : Headers)
| session_request (method url : string) (json : option dict)
    (headers : Headers).

(** An HTTP response: the status code and, for the login endpoint, the
    decoded body ([response.json()], a bare JSON string). *)
Record Response := { status_code : Z; json : string }.

(** [response.ok] of the requests library. *)
Definition ok (r : Response) : bool := (status_code r <? 400)%Z.

(** Modelled from the spec: [magento/constants.py] is not among the
    sources.  The visibility tiers of a product attribute are global,
    website and store view. *)
Inductive Scope := GLOBAL | WEBSITE | STORE.

#[global] Instance Scope_eq_dec : EqDecision Scope.
Proof. solve_decision. Defined.

(** Modelled from the spec: [magento/constants.py] is not among the
    sources.  A client logs in with a password or uses an API key as its
    token. *)
Inductive AuthenticationMethod := PASSWORD | TOKEN.

#[global] Instance AuthenticationMethod_eq_dec : EqDecision AuthenticationMethod.
Proof. solve_decision. Defined.

(** Modelled from the spec: [magento/constants.py] is not among the
    sources.  The store codes [StoreCode.DEFAULT.value] and
    [StoreCode.ALL.value]. *)
Module StoreCode.
Definition DEFAULT : string := "default".
Definition ALL : string := "all".
End StoreCode.

(** The fields of the models that the client and the store read. *)
Record ProductAttribute := { attribute_code : string; attr_scope : Scope }.
Record Product := { sku : string }.
(** A store configuration record ([APIResponse]) with its [code] and [id]. *)
Record APIResponse := { config_code : string; config_id : Z }.

#[global] Instance ProductAttribute_eq_dec : EqDecision ProductAttribute.
Proof. solve_decision. Defined.

(** The managers [Client.manager] can hand out.  [GeneralManager endpoint]
    is [Manager(endpoint=endpoint, client=self)]; the two stateful
    families carry the model object they were built from. *)
Inductive Manager :=
| OrderManager
| OrderItemManager
| InvoiceManager
| TaxClassManager
| CategoryManager
| ProductManager
| ProductAttributeManager
| AttributeSetManager
| ShipmentManager
| CustomerManager
| ProductAttributeOptionManager (attribute : option ProductAttribute)
| MediaEntryManager (product : option Product)
| GeneralManager (endpoint : string).

(** Exceptions.  [AuthenticationError] carries its message and the
    response that caused it, when given. *)
Inductive exn :=
| ValueError (msg : string)
| AttributeError (msg : string)
| IndexError (msg : string)
| TypeError (msg : string)
| AuthenticationError (msg : option string) (response : option Response).

(** Log records, by severity and message template. *)
Inductive LogRecord :=
| info_authenticating (username : option string) (domain : string)
| debug_validating_token
| info_authenticated (domain : string)
| debug_token_validated (username : option string) (domain : string)
| debug_reauthenticate
| error_request_failed (url : string) (status : Z).

(** The values memoized in the dictionary of a [Store]. *)
Inductive Cached :=
| Records (l : list APIResponse)
| Attributes (l : list ProductAttribute)
| Codes (l : list string).

(** ** The client object *)

Record Client := {
  BASE_URL : string;
  username : option string;
  password : option string;
  api_key : option string;
  authentication_method : AuthenticationMethod;
  domain : string;
  scope : string;
  user_agent : string;
  authentication_retries : Z;
  ACCESS_TOKEN : Py.attr string;
  _product_attribute_options_attribute : Py.attr ProductAttribute;
  _product_attribute_options : Py.attr Manager;
  _media_entries_product : Py.attr Product;
  _media_entry_manager : Py.attr Manager
}.

Definition set_authentication_retries (n : Z) (c : Client) : Client :=
  {| BASE_URL := BASE_URL c; username := username c; password := password c;
     api_key := api_key c; authentication_method := authentication_method c;
     domain := domain c; scope := scope c; user_agent := user_agent c;
     authentication_retries := n;
     ACCESS_TOKEN := ACCESS_TOKEN c;
     _product_attribute_options_attribute := _product_attribute_options_attribute c;
     _product_attribute_options := _product_attribute_options c;
     _media_entries_product := _media_entries_product c;
     _media_entry_manager := _media_entry_manager c |}.

Definition set_ACCESS_TOKEN (t : Py.attr string) (c : Client) : Client :=
  {| BASE_URL := BASE_URL c; username := username c; password := password c;
     api_key := api_key c; authentication_method := authentication_method c;
     domain := domain c; scope := scope c; user_agent := user_agent c;
     authentication_retries := authentication_retries c;
     ACCESS_TOKEN := t;
     _product_attribute_options_attribute := _product_attribute_options_attribute c;
     _product_attribute_options := _product_attribute_options c;
     _media_entries_product := _media_entries_product c;
     _media_entry_manager := _media_entry_manager c |}.

Definition set__product_attribute_options_attribute
    (a : Py.attr ProductAttribute) (c : Client) : Client :=
  {| BASE_URL := BASE_URL c; username := username c; password := password c;
     api_key := api_key c; authentication_method := authentication_method c;
     domain := domain c; scope := scope c; user_agent := user_agent c;
     authentication_retries := authentication_retries c;
     ACCESS_TOKEN := ACCESS_TOKEN c;
     _product_attribute_options_attribute := a;
     _product_attribute_options := _product_attribute_options c;
     _media_entries_product := _media_entries_product c;
     _media_entry_manager := _media_entry_manager c |}.

Definition set__product_attribute_options
    (m : Py.attr Manager) (c : Client) : Client :=
  {| BASE_URL := BASE_URL c; username := username c; password := password c;
     api_key := api_key c; authentication_method := authentication_method c;
     domain := domain c; scope := scope c; user_agent := user_agent c;
     authentication_retries := authentication_retries c;
     ACCESS_TOKEN := ACCESS_TOKEN c;
     _product_attribute_options_attribute := _product_attribute_options_attribute c;
     _product_attribute_options := m;
     _media_entries_product := _media_entries_product c;
     _media_entry_manager := _media_entry_manager c |}.

Definition set__media_entries_product
    (p : Py.attr Product) (c : Client) : Client :=
  {| BASE_URL := BASE_URL c; username := username c; password := password c;
     api_key := api_key c; authentication_method := authentication_method c;
     domain := domain c; scope := scope c; user_agent := user_agent c;
     authentication_retries := authentication_retries c;
     ACCESS_TOKEN := ACCESS_TOKEN c;
     _product_attribute_options_attribute := _product_attribute_options_attribute c;
     _product_attribute_options := _product_attribute_options c;
     _media_entries_product := p;
     _media_entry_manager := _media_entry_manager c |}.

Definition set__media_entry_manager
    (m : Py.attr Manager) (c : Client) : Client :=
  {| BASE_URL := BASE_URL c; username := username c; password := password c;
     api_key := api_key c; authentication_method := authentication_method c;
     domain := domain c; scope := scope c; user_agent := user_agent c;
     authentication_retries := authentication_retries c;
     ACCESS_TOKEN := ACCESS_TOKEN c;
     _product_attribute_options_attribute := _product_attribute_options_attribute c;
     _product_attribute_options := _product_attribute_options c;
     _media_entries_product := _media_entries_product c;
     _media_entry_manager := m |}.

(** ** The world a method runs in

    [store] holds the memoized entries of [client.store.__dict__]; [sent]
    is every HTTP request issued so far, [fetched] the manager of every
    search run for the store, [log] every record handed to the logger, each
    with the most recent entry first. *)
Record World := {
  client : Client;
  store : gmap string Cached;
  sent : list Request;
  fetched : list Manager;
  log : list LogRecord
}.

Definition with_client (f : Client → Client) (w : World) : World :=
  {| client := f (client w); store := store w; sent := sent w;
     fetched := fetched w; log := log w |}.

Definition with_store (f : gmap string Cached → gmap string Cached)
    (w : World) : World :=
  {| client := client w; store := f (store w); sent := sent w;
     fetched := fetched w; log := log w |}.

Definition add_sent (r : Request) (w : World) : World :=
  {| client := client w; store := store w; sent := r :: sent w;
     fetched := fetched w; log := log w |}.

Definition add_fetched (m : Manager) (w : World) : World :=
  {| client := client w; store := store w; sent := sent w;
     fetched := m :: fetched w; log := log w |}.

Definition add_log (r : LogRecord) (w : World) : World :=
  {| client := client w; store := store w; sent := sent w;
     fetched := fetched w; log := r :: log w |}.

(** ** The monad: state, exceptions, and running out of fuel *)

Inductive outcome (A : Type) :=
| Ok (a : A)
| Raise (e : exn)
| OutOfFuel.
Arguments Ok {A} a.
Arguments Raise {A} e.
Arguments OutOfFuel {A}.

Definition M (A : Type) : Type := World → outcome A * World.

Definition ret {A} (a : A) : M A := fun w => (Ok a, w).
Definition raise {A} (e : exn) : M A := fun w => (Raise e, w).
Definition out_of_fuel {A} : M A := fun w => (OutOfFuel, w).

Definition bind {A B} (m : M A) (k : A → M B) : M B :=
  fun w =>
    match m w with
    | (Ok a, w') => k a w'
    | (Raise e, w') => (Raise e, w')
    | (OutOfFuel, w') => (OutOfFuel, w')
    end.

Definition get_client : M Client := fun w => (Ok (client w), w).
Definition modify (f : World → World) : M unit := fun w => (Ok tt, f w).

(** [try: m  except AuthenticationError as e: h e] *)
Definition except_AuthenticationError {A} (m : M A)
    (h : option string → option Response → M A) : M A :=
  fun w =>
    match m w with
    | (Raise (AuthenticationError msg r), w') => h msg r w'
    | res => res
    end.

Declare Scope py_scope.
Delimit Scope py_scope with py.
Notation "'let!' x ':=' m 'in' k" := (bind m (fun x => k))
  (at level 10, x name, m at level 100, k at level 200) : py_scope.
Local Open Scope py_scope.

(** ** Endpoint routing: the manager properties and [Client.manager] *)

Definition orders : M Manager := ret OrderManager.
Definition taxes : M Manager := ret TaxClassManager.
Definition order_items : M Manager := ret OrderItemManager.
Definition invoices : M Manager := ret InvoiceManager.
Definition categories : M Manager := ret CategoryManager.
Definition products : M Manager := ret ProductManager.
Definition product_attributes : M Manager := ret ProductAttributeManager.
Definition product_attribute_set : M Manager := ret AttributeSetManager.
Definition shipments : M Manager := ret ShipmentManager.
Definition customers : M Manager := ret CustomerManager.

Definition no_attribute_set : string :=
  "Attribute was not set for this manager to work. Please set `product_attribute_options_attribute` first.".

Definition no_product_set : string :=
  "Product was not set for this manager to work. Please set `media_entries_product` first.".

(** The error of reading an instance attribute that does not exist. *)
Definition no_such_attribute (name : string) : exn :=
  AttributeError ("'Client' object has no attribute '" ++ name ++ "'").

(** The getter of [product_attribute_options_attribute]. *)
Definition product_attribute_options_attribute : M (option ProductAttribute) :=
  let! c := get_client in
  match _product_attribute_options_attribute c with
  | Some a => ret a
  | None => ret None
  end.

(** The setter of [product_attribute_options_attribute]. *)
Definition set_product_attribute_options_attribute
    (attribute : option ProductAttribute) : M unit :=
  let! c := get_client in
  let! _ := (if Py.hasattr (_product_attribute_options c)
             then modify (with_client (set__product_attribute_options None))
             else ret tt) in
  modify (with_client
            (set__product_attribute_options_attribute (Some attribute))).

Definition product_attribute_options : M Manager :=
  let! c := get_client in
  if Py.missing (_product_attribute_options c)
     && Py.missing (_product_attribute_options_attribute c)
  then raise (AttributeError no_attribute_set)
  else
    match _product_attribute_options_attribute c with
    | None => raise (no_such_attribute "_product_attribute_options_attribute")
    | Some a =>
        let m := ProductAttributeOptionManager a in
        let! _ := modify (with_client
                            (set__product_attribute_options (Some (Some m)))) in
        ret m
    end.

(** The getter of [media_entries_product]. *)
Definition media_entries_product : M (option Product) :=
  let! c := get_client in
  match _media_entries_product c with
  | Some p => ret p
  | None => ret None
  end.

(** The setter of [media_entries_product]. *)
Definition set_media_entries_product (product : option Product) : M unit :=
  let! c := get_client in
  let! _ := (if Py.hasattr (_media_entry_manager c)
             then modify (with_client (set__media_entry_manager None))
             else ret tt) in
  modify (with_client (set__media_entries_product (Some product))).

Definition product_media_entries : M Manager :=
  let! c := get_client in
  if Py.missing (_media_entry_manager c)
     && Py.missing (_media_entries_product c)
  then raise (AttributeError no_product_set)
  else
    match _media_entries_product c with
    | None => raise (no_such_attribute "_media_entries_product")
    | Some p =>
        let m := MediaEntryManager p in
        let! _ := modify (with_client
                            (set__media_entry_manager (Some (Some m)))) in
        ret m
    end.

Definition manager (endpoint : string) : M Manager :=
  let e := Py.lower endpoint in
  if String.eqb e "orders" then orders
  else if String.eqb e "orders/items" then order_items
  else if String.eqb e "invoices" then invoices
  else if String.eqb e "taxes" then taxes
  else if String.eqb e "categories" then categories
  else if String.eqb e "products" then products
  else if String.eqb e "products/attributes" then product_attributes
  else if String.eqb e "products/attribute-sets"
          || String.eqb e "products/attribute-sets/list"
       then product_attribute_set
  else if String.eqb e "shipment" || String.eqb e "shipments" then shipments
  else if String.eqb e "customers" || String.eqb e "customers/search"
       then customers
  else if Py.contains "products/attributes" e && Py.contains "/options" e
       then product_attribute_options
  else if Py.contains "products/" e && Py.contains "/media" e
       then product_media_entries
  else ret (GeneralManager endpoint).

(** ** The outside world

    The Magento server and the manager classes are not part of the client.
    [respond] is the HTTP response to a request, given every request sent
    before it; [search_result] and [attribute_list] are what a manager's
    [execute_search()] and [all_in_memory()] return, given the searches
    run before.  Every exchange is answered: a transport that fails
    altogether is outside the model. *)
Record Backend := {
  respond : list Request → Request → Response;
  search_result : list Manager → Manager → list APIResponse;
  attribute_list : list Manager → list ProductAttribute
}.

(** ** The store and its cached properties *)

Section Store.

Variable backend : Backend.

(** [manager.execute_search()] *)
Definition execute_search (m : Manager) : M Cached :=
  fun w => (Ok (Records (search_result backend (fetched w) m)),
            add_fetched m w).

(** [manager.all_in_memory()] *)
Definition all_in_memory (m : Manager) : M Cached :=
  fun w => (Ok (Attributes (attribute_list backend (fetched w))),
            add_fetched m w).

(** [functools.cached_property]: the value under [name] in the instance
    dictionary if there is one, else the computed value, stored there. *)
Definition cached_property (name : string) (compute : M Cached) : M Cached :=
  fun w =>
    match store w !! name with
    | Some v => (Ok v, w)
    | None =>
        (let! v := compute in
         let! _ := modify (with_store (insert name v)) in
         ret v) w
    end.

(** Reading a memoized value at the type its property computes.  An entry
    is only ever written by its own property, so the other shapes do not
    arise from the methods below. *)
Definition records (v : Cached) : M (list APIResponse) :=
  match v with
  | Records l => ret l
  | _ => raise (TypeError "not a list of records")
  end.

Definition attributes (v : Cached) : M (list ProductAttribute) :=
  match v with
  | Attributes l => ret l
  | _ => raise (TypeError "not a list of attributes")
  end.

Definition codes (v : Cached) : M (list string) :=
  match v with
  | Codes l => ret l
  | _ => raise (TypeError "not a list of codes")
  end.

Definition configs : M (list APIResponse) :=
  let! v := cached_property "configs"
              (let! m := manager "store/storeConfigs" in execute_search m) in
  records v.

Definition views : M (list APIResponse) :=
  let! v := cached_property "views"
              (let! m := manager "store/storeViews" in execute_search m) in
  records v.

Definition websites : M (list APIResponse) :=
  let! v := cached_property "websites"
              (let! m := manager "store/websites" in execute_search m) in
  records v.

Definition all_product_attributes : M (list ProductAttribute) :=
  let! v := cached_property "all_product_attributes"
              (let! m := product_attributes in all_in_memory m) in
  attributes v.

Definition store_view_product_attributes : M (list ProductAttribute) :=
  let! v := cached_property "store_view_product_attributes"
              (let! l := all_product_attributes in
               ret (Attributes (filter (λ a, attr_scope a = STORE) l))) in
  attributes v.

Definition website_product_attributes : M (list ProductAttribute) :=
  let! v := cached_property "website_product_attributes"
              (let! l := all_product_attributes in
               ret (Attributes (filter (λ a, attr_scope a = WEBSITE) l))) in
  attributes v.

Definition global_product_attributes : M (list ProductAttribute) :=
  let! v := cached_property "global_product_attributes"
              (let! l := all_product_attributes in
               ret (Attributes (filter (λ a, attr_scope a = GLOBAL) l))) in
  attributes v.

Definition website_attribute_codes : M (list string) :=
  let! v := cached_property "website_attribute_codes"
              (let! l := website_product_attributes in
               ret (Codes (map attribute_code l))) in
  codes v.

Definition is_single_store : M bool :=
  let! l := configs in
  ret (Nat.eqb (length l) 1).

(** The store code [active] looks for. *)
Definition store_code (c : Client) : string :=
  if String.eqb (scope c) "" || String.eqb (scope c) StoreCode.ALL
  then StoreCode.DEFAULT
  else scope c.

Definition active : M (option APIResponse) :=
  let! c := get_client in
  let! l := configs in
  match find (λ s, String.eqb (config_code s) (store_code c)) l with
  | Some s => ret (Some s)
  | None =>
      if String.eqb (store_code c) StoreCode.DEFAULT then
        let! l' := configs in
        match Py.sorted config_id l' with
        | s :: _ => ret (Some s)
        | [] => raise (IndexError "list index out of range")
        end
      else ret None
  end.

(** The comprehension of [filter_website_attrs]: for each item, in turn,
    [k in self.website_attribute_codes]. *)
Fixpoint keep_website_attrs {A} (items : list (string * A))
    : M (list (string * A)) :=
  match items with
  | [] => ret []
  | (k, v) :: rest =>
      let! cs := website_attribute_codes in
      let! kept := keep_website_attrs rest in
      ret (if bool_decide (k ∈ cs) then (k, v) :: kept else kept)
  end.

(** The argument and the result are dictionaries, compared as Python
    compares them: by their items, whatever the order. *)
Definition filter_website_attrs {A} (attribute_data : gmap string A)
    : M (gmap string A) :=
  let! kept := keep_website_attrs (map_to_list attribute_data) in
  ret (list_to_map kept).

Definition cached : list string :=
  ["configs"; "views"; "all_product_attributes";
   "store_view_product_attributes"; "website_product_attributes";
   "global_product_attributes"; "website_attribute_codes"].

Definition refresh : M bool :=
  let! _ := modify (with_store (λ d, foldl (λ d key, delete key d) d cached)) in
  ret true.

End Store.

(** ** Authentication and the request dispatcher *)

Section Requests.

Variable backend : Backend.

Definition logger (r : LogRecord) : M unit := modify (add_log r).

(** One HTTP exchange.  For [session_request] the answer is the one the
    session hands back, after the retries its adapter makes on 502, 503
    and 504. *)
Definition send (r : Request) : M Response :=
  fun w => (Ok (respond backend (sent w) r), add_sent r w).

Definition url_for (c : Client) (endpoint : string) (scope' : option string)
    : string :=
  if negb (Py.truthy scope') then
    if negb (String.eqb (scope c) "") && negb (bool_decide (is_Some scope'))
    then Py.replace "/V1" ("/" ++ scope c ++ "/V1") (BASE_URL c) ++ endpoint
    else BASE_URL c ++ endpoint
  else Py.replace "/V1" ("/" ++ Py.format scope' ++ "/V1") (BASE_URL c)
       ++ endpoint.

(** The [token] property, given the [authenticate] it may call. *)
Definition token (authenticate : M bool) : M (option string) :=
  let! c := get_client in
  match ACCESS_TOKEN c with
  | None => raise (no_such_attribute "ACCESS_TOKEN")
  | Some t =>
      let! _ := (if negb (Py.truthy t) then authenticate else ret true) in
      let! c' := get_client in
      match ACCESS_TOKEN c' with
      | None => raise (no_such_attribute "ACCESS_TOKEN")
      | Some t' => ret t'
      end
  end.

(** The [headers] property. *)
Definition headers (authenticate : M bool) : M Headers :=
  let! t := token authenticate in
  let! c := get_client in
  ret [("Authorization", "Bearer " ++ Py.format t);
       ("Content-Type", "application/json");
       ("User-Agent", user_agent c)].

Definition get (request : string → string → option dict → M Response)
    (url : string) : M Response :=
  request "GET" url None.

Definition post (request : string → string → option dict → M Response)
    (url : string) (payload : dict) : M Response :=
  request "POST" url (Some payload).

Definition put (request : string → string → option dict → M Response)
    (url : string) (payload : dict) : M Response :=
  request "PUT" url (Some payload).

Definition delete (request : string → string → option dict → M Response)
    (url : string) : M Response :=
  request "DELETE" url None.

Definition validation_failed (c : Client) : string :=
  "Token validation failed for " ++ Py.format (username c)
  ++ " on " ++ domain c.

(** [validate], given the [request] it sends through. *)
Definition validate (request : string → string → option dict → M Response)
    : M bool :=
  let! c := get_client in
  let! response := get request (url_for c "store/websites" None) in
  if (status_code response =? 200)%Z then
    let! c' := get_client in
    let! _ := logger (debug_token_validated (username c') (domain c')) in
    ret true
  else
    let! c' := get_client in
    raise (AuthenticationError (Some (validation_failed c')) (Some response)).

Definition nonempty (payload : option dict) : bool :=
  match payload with
  | Some (_ :: _) => true
  | _ => false
  end.

(** [authenticate] and [request] call each other, and [request] calls
    itself; [fuel] bounds the depth of these calls.  The decorator of
    [request] re-runs it when a JSON body fails to decode; responses here
    are already decoded, so it passes every call through. *)
Fixpoint authenticate (fuel : nat) : M bool :=
  match fuel with
  | O => out_of_fuel
  | S fuel' =>
      let! c := get_client in
      if (authentication_retries c =? 3)%Z then
        raise (ValueError "Max attends of authentication attempts exceeded")
      else
        let! _ := modify (with_client (set_authentication_retries
                                         (authentication_retries c + 1))) in
        if bool_decide (password c = None) && bool_decide (api_key c = None)
        then raise (ValueError "Ether password or api key must be provided.")
        else
          let! _ :=
            (match authentication_method c with
             | TOKEN =>
                 modify (with_client (set_ACCESS_TOKEN (Some (api_key c))))
             | PASSWORD =>
                 let endpoint := url_for c "integration/admin/token" None in
                 let payload := [("username", username c);
                                 ("password", password c)] in
                 let hdrs := [("Content-Type", "application/json");
                              ("User-Agent", user_agent c)] in
                 let! _ := logger (info_authenticating (username c)
                                     (domain c)) in
                 let! response := send (requests_post endpoint payload hdrs) in
                 if ok response then
                   modify (with_client
                             (set_ACCESS_TOKEN (Some (Some (json response)))))
                 else raise (AuthenticationError None (Some response))
             end) in
          let! _ := logger debug_validating_token in
          let! _ := except_AuthenticationError (validate (request fuel'))
                      (λ _ _, raise (AuthenticationError
                                       (Some "Token validation failed")
                                       None)) in
          let! _ := logger (info_authenticated (domain c)) in
          let! _ := modify (with_client (set_authentication_retries 0)) in
          ret true
  end
with request (fuel : nat) (method url : string) (payload : option dict)
    : M Response :=
  match fuel with
  | O => out_of_fuel
  | S fuel' =>
      let method := Py.upper method in
      let! response :=
        (if String.eqb method "GET" || String.eqb method "DELETE" then
           let! h := headers (authenticate fuel') in
           send (session_request method url None h)
         else if String.eqb method "POST" || String.eqb method "PUT" then
           if nonempty payload then
             let! h := headers (authenticate fuel') in
             send (session_request method url payload h)
           else raise (ValueError "Must provide a non-empty payload")
         else raise (ValueError "Invalid request method provided")) in
      if (status_code response =? 401)%Z then
        let! _ := logger debug_reauthenticate in
        let! _ := authenticate fuel' in
        request fuel' method url payload
      else
        let! _ := (if negb (status_code response =? 200)%Z
                   then logger (error_request_failed url
                                  (status_code response))
                   else ret tt) in
        ret response
  end.

End Requests.

(** ** Sequences of calls on the store *)

Inductive StoreCall :=
| call_is_single_store
| call_active
| call_configs
| call_views
| call_websites
| call_all_product_attributes
| call_store_view_product_attributes
| call_website_product_attributes
| call_global_product_attributes
| call_website_attribute_codes
| call_filter_website_attrs (attribute_data : gmap string JSON)
| call_refresh.

(** The world after a call, whatever the call returned or raised. *)
Definition after (backend : Backend) (c : StoreCall) (w : World) : World :=
  match c with
  | call_is_single_store => snd (is_single_store backend w)
  | call_active => snd (active backend w)
  | call_configs => snd (configs backend w)
  | call_views => snd (views backend w)
  | call_websites => snd (websites backend w)
  | call_all_product_attributes => snd (all_product_attributes backend w)
  | call_store_view_product_attributes =>
      snd (store_view_product_attributes backend w)
  | call_website_product_attributes =>
      snd (website_product_attributes backend w)
  | call_global_product_attributes =>
      snd (global_product_attributes backend w)
  | call_website_attribute_codes => snd (website_attribute_codes backend w)
  | call_filter_website_attrs d => snd (filter_website_attrs backend d w)
  | call_refresh => snd (refresh w)
  end.

Definition after_all (backend : Backend) (cs : list StoreCall) (w : World)
    : World :=
  foldl (λ w c, after backend c w) w cs.

(** ** Clients, stores and servers to run the methods on *)

(** A client as the constructor leaves it with [login=False]. *)
Definition new_client (method : AuthenticationMethod)
    (pw key : option string) (scope' : string) : Client :=
  {| BASE_URL := "https://shop.test/rest/V1/";
     username := Some "admin";
     password := pw;
     api_key := key;
     authentication_method := method;
     domain := "shop.test";
     scope := scope';
     user_agent := "agent";
     authentication_retries := 0;
     ACCESS_TOKEN := None;
     _product_attribute_options_attribute := None;
     _product_attribute_options := None;
     _media_entries_product := None;
     _media_entry_manager := None |}.

Definition new_world (c : Client) : World :=
  {| client := c; store := ∅; sent := []; fetched := []; log := [] |}.

Definition w_new : World := new_world (new_client PASSWORD None None "").

Definition w_password : World :=
  new_world (new_client PASSWORD (Some "secret") None "").

(** A client that holds the token [old]. *)
Definition w_logged_in : World :=
  with_client (set_ACCESS_TOKEN (Some (Some "old"))) w_password.

Definition color : ProductAttribute :=
  {| attribute_code := "color"; attr_scope := GLOBAL |}.

Definition size : ProductAttribute :=
  {| attribute_code := "size"; attr_scope := STORE |}.

Definition price : ProductAttribute :=
  {| attribute_code := "price"; attr_scope := WEBSITE |}.

Definition meta_title : ProductAttribute :=
  {| attribute_code := "meta_title"; attr_scope := STORE |}.

Definition shirt : Product := {| sku := "shirt" |}.

Definition config (code : string) (id : Z) : APIResponse :=
  {| config_code := code; config_id := id |}.

(** A backend from what the searches of the store return. *)
Definition catalog_backend (results : list Manager → list APIResponse)
    (attrs : list Manager → list ProductAttribute) : Backend :=
  {| respond := λ _ _, {| status_code := 200; json := "" |};
     search_result := λ past _, results past;
     attribute_list := attrs |}.

(** Stores whose config search returns a fixed list. *)
Definition two_defaults : Backend :=
  catalog_backend (λ _, [config "default" 2; config "default" 1]) (λ _, []).

Definition no_default : Backend :=
  catalog_backend (λ _, [config "en" 5; config "fr" 3; config "nl" 4])
    (λ _, []).

(** A store whose searches return a record numbered by how many searches
    ran before, so that a fresh fetch can be told from a memoized value. *)
Definition counting : Backend :=
  catalog_backend (λ past, [config "base" (Z.of_nat (length past))])
    (λ past, [color; size]).

(** A store with one attribute of each scope. *)
Definition catalog : Backend :=
  catalog_backend (λ _, [config "default" 1])
    (λ _, [price; meta_title; color]).

Definition is_login (r : Request) : bool :=
  match r with
  | requests_post _ _ _ => true
  | session_request _ _ _ _ => false
  end.

Definition is_request_to (url : string) (r : Request) : bool :=
  match r with
  | session_request _ u _ _ => String.eqb u url
  | requests_post _ _ _ => false
  end.

(** A backend from an HTTP behaviour alone. *)
Definition http_backend (f : list Request → Request → Response) : Backend :=
  {| respond := f;
     search_result := λ _ _, [];
     attribute_list := λ _, [] |}.

(** Servers.  Each of them accepts the login and hands out the token
    [tok], unless said otherwise. *)
Definition response (status : Z) : Response :=
  {| status_code := status; json := "tok" |}.

(** Every authorized request is answered with [status]. *)
Definition answering (status : Z) : Backend :=
  http_backend (λ _ r, if is_login r then response 200 else response status).

(** The login itself is rejected. *)
Definition login_rejected : Backend :=
  http_backend (λ _ _, response 401).

(** The validation endpoint answers 200, and so does every other
    endpoint, except that the first [n] requests to [url] are answered
    with 401. *)
Definition expired (n : nat) (url : string) : Backend :=
  http_backend (λ past r,
    if is_request_to url r
       && Nat.ltb (length (filter (λ x, is_request_to url x = true) past)) n
    then response 401
    else response 200).

(** Every login and every validation call is accepted, and every request
    to [url] is answered with 401, however often it is made. *)
Definition unauthorized (url : string) : Backend :=
  http_backend (λ _ r,
    if is_request_to url r then response 401 else response 200).

Definition orders_url : string := "https://shop.test/rest/V1/orders".

(** ** The requests of the dispatcher *)

(** The requests [authenticate] sends: the login, and the validation call
    made with the token [tok]. *)
Definition login_request (c : Client) : Request :=
  requests_post (url_for c "integration/admin/token" None)
    [("username", username c); ("password", password c)]
    [("Content-Type", "application/json"); ("User-Agent", user_agent c)].

Definition bearer (c : Client) (tok : string) : Headers :=
  [("Authorization", "Bearer " ++ tok);
   ("Content-Type", "application/json");
   ("User-Agent", user_agent c)].

Definition validation_request (c : Client) (tok : string) : Request :=
  session_request "GET" (url_for c "store/websites" None) None (bearer c tok).

(** What [request] puts on the wire for a method, already in upper case:
    no body for [GET] and [DELETE]; and whether it sends at all. *)
Definition wire_json (method : string) (payload : option dict) : option dict :=
  if String.eqb method "GET" || String.eqb method "DELETE" then None
  else payload.

Definition sendable (method : string) (payload : option dict) : bool :=
  String.eqb method "GET" || String.eqb method "DELETE"
  || ((String.eqb method "POST" || String.eqb method "PUT")
      && nonempty payload).

Definition wire (c : Client) (tok method url : string)
    (payload : option dict) : Request :=
  session_request method url (wire_json method payload) (bearer c tok).

(** A server on which the client [c] can authenticate whenever it tries,
    the login handing out a non-empty token and the validation call being
    answered with 200, while the request for [url] is answered with 401
    every time, whatever was sent before and whatever token it carries. *)
Definition rejects_forever (backend : Backend) (c : Client)
    (method url : string) (payload : option dict) : Prop :=
  ∀ past tok,
    ok (respond backend past (login_request c)) = true
    ∧ json (respond backend past (login_request c)) ≠ ""
    ∧ status_code (respond backend past (validation_request c tok)) = 200%Z
    ∧ status_code (respond backend past (wire c tok method url payload))
      = 401%Z.

(** ** The shape of the store dictionary *)

(** The entries of a store dictionary have the shape their property
    computes: a scope partition is the filter of the memoized full list,
    and the website codes are the codes of the memoized website
    partition. *)
Definition entry_ok (d : gmap string Cached) (name : string) (v : Cached)
    : Prop :=
  if String.eqb name "configs" || String.eqb name "views"
     || String.eqb name "websites"
  then ∃ l, v = Records l
  else if String.eqb name "all_product_attributes"
  then ∃ l, v = Attributes l
  else if String.eqb name "store_view_product_attributes"
  then ∃ l, d !! "all_product_attributes" = Some (Attributes l)
            ∧ v = Attributes (filter (λ a, attr_scope a = STORE) l)
  else if String.eqb name "website_product_attributes"
  then ∃ l, d !! "all_product_attributes" = Some (Attributes l)
            ∧ v = Attributes (filter (λ a, attr_scope a = WEBSITE) l)
  else if String.eqb name "global_product_attributes"
  then ∃ l, d !! "all_product_attributes" = Some (Attributes l)
            ∧ v = Attributes (filter (λ a, attr_scope a = GLOBAL) l)
  else if String.eqb name "website_attribute_codes"
  then ∃ l, d !! "website_product_attributes" = Some (Attributes l)
            ∧ v = Codes (map attribute_code l)
  else True.

Definition store_ok (d : gmap string Cached) : Prop :=
  ∀ name v, d !! name = Some v → entry_ok d name v.

(** What a cached property leaves behind: a well-shaped dictionary that
    extends the one before, holds the returned value under the property's
    name, is untouched when the value was already there, and differs from
    the one before at most at [names]. *)
Definition memo_step (names : list string) (w w' : World) (name : string)
    (v : Cached) : Prop :=
  store_ok (store w')
  ∧ store w ⊆ store w'
  ∧ store w' !! name = Some v
  ∧ (is_Some (store w !! name) → w' = w)
  ∧ (∀ k, k ∉ names → store w' !! k = store w !! k).

(** The head of a list carries a least key. *)
Definition head_least {A} (key : A → Z) (l : list A) : Prop :=
  match l with
  | [] => True
  | s :: _ => ∀ x, x ∈ l → (key s <= key x)%Z
  end.

(** ** The retry counter and the fuel *)

(** The retry counter, and how a run may move it.  [succeeded] marks the
    record logged by an authentication that went through; a run is quiet
    when it logs none. *)
Definition retries (w : World) : Z := authentication_retries (client w).

Definition succeeded (r : LogRecord) : bool :=
  match r with
  | info_authenticated _ => true
  | _ => false
  end.

Definition quiet (new : list LogRecord) : Prop :=
  ∀ r, r ∈ new → succeeded r = false.

(** From [w] to [w']: the log grows, the counter stays within its bound,
    and it does not go down unless an authentication went through. *)
Definition moves (w w' : World) : Prop :=
  ∃ new, log w' = (new ++ log w)%list
         ∧ ((retries w <= 3)%Z → (retries w' <= 3)%Z)
         ∧ (quiet new → (retries w <= retries w')%Z).

Definition respects {A} (m : M A) : Prop :=
  ∀ w o w', m w = (o, w') → moves w w'.

(** [m'] does what [m] does whenever [m] does not run out of fuel. *)
Definition extends {A} (m m' : M A) : Prop :=
  ∀ w o w', m w = (o, w') → o ≠ OutOfFuel → m' w = (o, w').

(** * Properties *)

(** ** Endpoint routing *)

Lemma eqb_false_by_contains (sub e name : string) :
  Py.contains sub e = true →
  Py.contains sub name = false →
  String.eqb e name = false.
Proof.
  intros He Hname. apply String.eqb_neq. intros ->. congruence.
Qed.

(** C5, as the code has it: an endpoint whose lower-cased text contains
    both [products/attributes] and [/options] resolves to the
    attribute-options handler, that is, [manager] behaves as the
    [product_attribute_options] property. *)
Theorem manager_attribute_options (endpoint : string) (w : World) :
  Py.contains "products/attributes" (Py.lower endpoint) = true →
  Py.contains "/options" (Py.lower endpoint) = true →
  manager endpoint w = product_attribute_options w.
Proof.
  intros Hattr Hopt. unfold manager.
  repeat match goal with
  | |- context [String.eqb (Py.lower endpoint) ?name] =>
      rewrite (eqb_false_by_contains "/options" _ name Hopt eq_refl)
  end.
  cbn [orb]. now rewrite Hattr, Hopt.
Qed.

Lemma manager_attribute_options_witness :
  manager "products/attributes/color/options" w_new
  = product_attribute_options w_new.
Proof.
  apply manager_attribute_options; reflexivity.
Defined.

(** C5 as stated fails: [products/attr123/options] does not
    contain [products/attributes]; with the attribute set, so that the
    attribute-options handler can be built, [manager] still answers with
    the general manager. *)
Lemma manager_attr123_general :
  let w := snd (set_product_attribute_options_attribute (Some color) w_new) in
  fst (product_attribute_options w)
    = Ok (ProductAttributeOptionManager (Some color))
  ∧ fst (manager "products/attr123/options" w)
    = Ok (GeneralManager "products/attr123/options")
  ∧ fst (manager "products/attr123/options" w)
    ≠ fst (product_attribute_options w).
Proof.
  vm_compute. repeat split; discriminate.
Qed.

(** C7: resolving the attribute-options handler, or the media-entry
    handler, while its attribute, or product, is unset raises an
    [AttributeError] and leaves the world as it was: nothing is sent.  With
    no handler built yet the error is the one naming the property to set.
    Assigning a prerequisite drops the handler built before, and the next
    resolution returns, and keeps, a handler built from the new value. *)
Theorem handler_prerequisites (w : World) :
  (_product_attribute_options_attribute (client w) = None →
   ∃ msg, product_attribute_options w = (Raise (AttributeError msg), w))
  ∧ (Py.missing (_product_attribute_options (client w)) = true →
     Py.missing (_product_attribute_options_attribute (client w)) = true →
     product_attribute_options w = (Raise (AttributeError no_attribute_set), w))
  ∧ (∀ a : ProductAttribute,
       let w1 := snd (set_product_attribute_options_attribute (Some a) w) in
       let m := ProductAttributeOptionManager (Some a) in
       fst (set_product_attribute_options_attribute (Some a) w) = Ok tt
       ∧ _product_attribute_options (client w1) = None
       ∧ product_attribute_options w1
         = (Ok m, with_client (set__product_attribute_options (Some (Some m))) w1))
  ∧ (_media_entries_product (client w) = None →
     ∃ msg, product_media_entries w = (Raise (AttributeError msg), w))
  ∧ (Py.missing (_media_entry_manager (client w)) = true →
     Py.missing (_media_entries_product (client w)) = true →
     product_media_entries w = (Raise (AttributeError no_product_set), w))
  ∧ (∀ p : Product,
       let w1 := snd (set_media_entries_product (Some p) w) in
       let m := MediaEntryManager (Some p) in
       fst (set_media_entries_product (Some p) w) = Ok tt
       ∧ _media_entry_manager (client w1) = None
       ∧ product_media_entries w1
         = (Ok m, with_client (set__media_entry_manager (Some (Some m))) w1)).
Proof.
  destruct w as [c st se fe lo].
  destruct c as [bu un pw ak am dm sc ua ar tk oa om mp mm]. cbn.
  repeat split.
  - intros ->. unfold product_attribute_options, bind, get_client, raise. cbn.
    destruct om as [[?|]|]; cbn; eauto.
  - intros Hm Ha. unfold product_attribute_options, bind, get_client, raise.
    cbn. now rewrite Hm, Ha.
  - destruct om; reflexivity.
  - destruct om; reflexivity.
  - destruct om; reflexivity.
  - intros ->. unfold product_media_entries, bind, get_client, raise. cbn.
    destruct mm as [[?|]|]; cbn; eauto.
  - intros Hm Hp. unfold product_media_entries, bind, get_client, raise.
    cbn. now rewrite Hm, Hp.
  - destruct mm; reflexivity.
  - destruct mm; reflexivity.
  - destruct mm; reflexivity.
Qed.

Lemma handler_prerequisites_witness :
  (∃ msg, product_attribute_options w_new = (Raise (AttributeError msg), w_new))
  ∧ product_attribute_options w_new
    = (Raise (AttributeError no_attribute_set), w_new)
  ∧ (∃ msg, product_media_entries w_new = (Raise (AttributeError msg), w_new))
  ∧ product_media_entries w_new = (Raise (AttributeError no_product_set), w_new).
Proof.
  pose proof (handler_prerequisites w_new) as (H1 & H2 & _ & H4 & H5 & _).
  split; [|split; [|split]].
  - apply H1. reflexivity.
  - apply H2; reflexivity.
  - apply H4. reflexivity.
  - apply H5; reflexivity.
Defined.

(** Unset, set, resolve, change, resolve. *)
Example options_handler_follows_attribute :
  let w1 := snd (set_product_attribute_options_attribute (Some color) w_new) in
  let w2 := snd (product_attribute_options w1) in
  let w3 := snd (set_product_attribute_options_attribute (Some size) w2) in
  fst (product_attribute_options w_new) = Raise (AttributeError no_attribute_set)
  ∧ fst (product_attribute_options w1)
    = Ok (ProductAttributeOptionManager (Some color))
  ∧ _product_attribute_options (client w2)
    = Some (Some (ProductAttributeOptionManager (Some color)))
  ∧ _product_attribute_options (client w3) = None
  ∧ fst (product_attribute_options w3)
    = Ok (ProductAttributeOptionManager (Some size)).
Proof. repeat split. Qed.

(** ** Sorting *)

Lemma insert_sorted_perm {A} (key : A → Z) (x : A) (l : list A) :
  Py.insert_sorted key x l ≡ₚ x :: l.
Proof.
  induction l as [|y l IH]; cbn; [done|].
  destruct (key x <=? key y)%Z; [done|].
  rewrite IH. apply Permutation_swap.
Qed.

Lemma sorted_perm {A} (key : A → Z) (l : list A) : Py.sorted key l ≡ₚ l.
Proof.
  induction l as [|x l IH]; cbn; [done|].
  now rewrite insert_sorted_perm, IH.
Qed.

Lemma insert_sorted_head_least {A} (key : A → Z) (x : A) (l : list A) :
  head_least key l → head_least key (Py.insert_sorted key x l).
Proof.
  destruct l as [|y l]; cbn.
  - intros _ z Hz. apply list_elem_of_singleton in Hz as ->. lia.
  - intros Hy. destruct (key x <=? key y)%Z eqn:E.
    + intros z Hz. apply elem_of_cons in Hz as [->|Hz]; [lia|].
      specialize (Hy z Hz). lia.
    + intros z Hz. apply elem_of_cons in Hz as [->|Hz]; [lia|].
      rewrite insert_sorted_perm in Hz.
      apply elem_of_cons in Hz as [->|Hz]; [lia|].
      apply Hy. now right.
Qed.

Lemma sorted_head_least {A} (key : A → Z) (l : list A) :
  head_least key (Py.sorted key l).
Proof.
  induction l as [|x l IH]; cbn; [done|].
  now apply insert_sorted_head_least.
Qed.

(** [sorted(l, key)[0]] exists for a non-empty list, is one of its
    elements, and no element has a smaller key. *)
Lemma sorted_first {A} (key : A → Z) (l : list A) :
  l ≠ [] →
  ∃ s rest, Py.sorted key l = s :: rest
            ∧ s ∈ l ∧ ∀ x, x ∈ l → (key s <= key x)%Z.
Proof.
  intros Hl. pose proof (sorted_perm key l) as Hp.
  pose proof (sorted_head_least key l) as Hh.
  destruct (Py.sorted key l) as [|s rest] eqn:E.
  - apply Permutation_nil_l in Hp. congruence.
  - exists s, rest. split; [done|]. split.
    + rewrite <- Hp. now left.
    + intros x Hx. apply Hh. now rewrite Hp.
Qed.

(** ** The cached properties of the store *)

Section StoreProperties.

Variable backend : Backend.

(** What each cached property does, by the state of the dictionary. *)
Lemma configs_eq (w : World) :
  configs backend w =
  match store w !! "configs" with
  | Some (Records l) => (Ok l, w)
  | Some _ => (Raise (TypeError "not a list of records"), w)
  | None =>
      let m := GeneralManager "store/storeConfigs" in
      let l := search_result backend (fetched w) m in
      (Ok l, with_store (insert "configs" (Records l)) (add_fetched m w))
  end.
Proof.
  unfold configs, bind, cached_property.
  destruct (store w !! "configs") as [[l|l|l]|]; reflexivity.
Qed.

Lemma configs_memoized (w w' : World) (l : list APIResponse) :
  configs backend w = (Ok l, w') →
  store w' !! "configs" = Some (Records l) ∧ client w' = client w.
Proof.
  rewrite configs_eq.
  destruct (store w !! "configs") as [[l0|l0|l0]|] eqn:E; cbn;
    intros [= <- <-]; auto.
  split; [apply lookup_insert_eq | reflexivity].
Qed.

Lemma configs_again (w w' : World) (l : list APIResponse) :
  configs backend w = (Ok l, w') → configs backend w' = (Ok l, w').
Proof.
  intros H. apply configs_memoized in H as [H _].
  now rewrite configs_eq, H.
Qed.

(** [find] returns the first element, in list order, that passes the
    test. *)
Lemma find_first {A} (f : A → bool) (pre post : list A) (s : A) :
  (∀ x, x ∈ pre → f x = false) → f s = true →
  find f (pre ++ s :: post)%list = Some s.
Proof.
  intros Hpre Hs. induction pre as [|y pre IH]; cbn.
  - now rewrite Hs.
  - rewrite (Hpre y) by now left. apply IH. intros x Hx. apply Hpre. now right.
Qed.

Lemma find_none {A} (f : A → bool) (l : list A) :
  (∀ x, x ∈ l → f x = false) → find f l = None.
Proof.
  intros Hl. induction l as [|y l IH]; cbn; [done|].
  rewrite (Hl y) by now left. apply IH. intros x Hx. apply Hl. now right.
Qed.

(** [active], once the config list is known. *)
Lemma active_eq (w w1 : World) (l : list APIResponse) :
  configs backend w = (Ok l, w1) →
  active backend w =
  match find (λ s, String.eqb (config_code s) (store_code (client w))) l with
  | Some s => (Ok (Some s), w1)
  | None =>
      if String.eqb (store_code (client w)) StoreCode.DEFAULT then
        match Py.sorted config_id l with
        | s :: _ => (Ok (Some s), w1)
        | [] => (Raise (IndexError "list index out of range"), w1)
        end
      else (Ok None, w1)
  end.
Proof.
  intros Hc. pose proof (configs_again _ _ _ Hc) as Hc'.
  unfold active, bind, get_client. rewrite Hc.
  destruct (find _ l); [reflexivity|].
  destruct (String.eqb _ StoreCode.DEFAULT); [|reflexivity].
  rewrite Hc'. destruct (Py.sorted config_id l); reflexivity.
Qed.

Lemma active_world (w w1 : World) (l : list APIResponse) :
  configs backend w = (Ok l, w1) → snd (active backend w) = w1.
Proof.
  intros Hc. rewrite (active_eq _ _ _ Hc).
  destruct (find _ l); [reflexivity|].
  destruct (String.eqb _ StoreCode.DEFAULT); [|reflexivity].
  destruct (Py.sorted config_id l); reflexivity.
Qed.

(** C1, as the code has it.  Let [l] be the config list, however it was
    obtained, and [code] the client's scope, or ["default"] when the scope
    is [''] or ['all'].  [active] returns the first record of [l], in list
    order, whose code is [code]; only when no record has that code and
    [code] is ["default"] does it return a record of [l] with the
    smallest id; when no record has that code and [code] is another one,
    it returns [None]. *)
Theorem active_resolution (w w1 : World) (l : list APIResponse) :
  configs backend w = (Ok l, w1) →
  let code := store_code (client w) in
  (∀ pre s post,
     l = (pre ++ s :: post)%list →
     config_code s = code →
     (∀ x, x ∈ pre → config_code x ≠ code) →
     active backend w = (Ok (Some s), w1))
  ∧ ((∀ x, x ∈ l → config_code x ≠ code) →
     code = StoreCode.DEFAULT → l ≠ [] →
     ∃ s, active backend w = (Ok (Some s), w1)
          ∧ s ∈ l ∧ ∀ x, x ∈ l → (config_id s <= config_id x)%Z)
  ∧ ((∀ x, x ∈ l → config_code x ≠ code) →
     code ≠ StoreCode.DEFAULT →
     active backend w = (Ok None, w1)).
Proof.
  intros Hc code. pose proof (active_eq _ _ _ Hc) as Hact. fold code in Hact.
  split; [|split].
  - intros pre s post -> Hs Hpre. rewrite Hact.
    rewrite (find_first _ pre post s); [reflexivity| |].
    + intros x Hx. apply String.eqb_neq. now apply Hpre.
    + now apply String.eqb_eq.
  - intros Hnone Hdef Hne. rewrite Hact.
    rewrite find_none
      by (intros x Hx; apply String.eqb_neq; now apply Hnone).
    apply String.eqb_eq in Hdef as ->.
    destruct (sorted_first config_id l Hne) as (s & rest & -> & Hin & Hmin).
    exists s. auto.
  - intros Hnone Hdef. rewrite Hact.
    rewrite find_none
      by (intros x Hx; apply String.eqb_neq; now apply Hnone).
    apply String.eqb_neq in Hdef as ->. reflexivity.
Qed.

End StoreProperties.

Lemma active_resolution_witness :
  active two_defaults w_new
  = (Ok (Some (config "default" 2)), snd (configs two_defaults w_new))
  ∧ (∃ s, active no_default w_new = (Ok (Some s), snd (configs no_default w_new))
          ∧ s ∈ [config "en" 5; config "fr" 3; config "nl" 4]
          ∧ ∀ x, x ∈ [config "en" 5; config "fr" 3; config "nl" 4] →
                 (config_id s <= config_id x)%Z)
  ∧ active no_default (new_world (new_client PASSWORD None None "de"))
    = (Ok None,
       snd (configs no_default (new_world (new_client PASSWORD None None "de")))).
Proof.
  split; [|split].
  - apply (proj1 (active_resolution two_defaults w_new _ _ eq_refl)
             [] (config "default" 2) [config "default" 1]);
      [reflexivity | reflexivity |].
    intros x Hx. now apply elem_of_nil in Hx.
  - apply (proj1 (proj2 (active_resolution no_default w_new _ _ eq_refl)));
      [| reflexivity | discriminate].
    intros x Hx. repeat (apply elem_of_cons in Hx as [->|Hx]; [discriminate|]).
    now apply elem_of_nil in Hx.
  - apply (proj2 (proj2 (active_resolution no_default
                           (new_world (new_client PASSWORD None None "de"))
                           _ _ eq_refl))); [| discriminate].
    intros x Hx. repeat (apply elem_of_cons in Hx as [->|Hx]; [discriminate|]).
    now apply elem_of_nil in Hx.
Defined.

(** C1 as stated fails: with configs
    [[{code:'default', id:2}, {code:'default', id:1}]] and scope [''] the
    loop returns the first record whose code is ["default"], the one with
    id 2, not the one with the smallest id. *)
Lemma active_two_defaults_returns_first :
  fst (active two_defaults w_new) = Ok (Some (config "default" 2))
  ∧ fst (active two_defaults w_new) ≠ Ok (Some (config "default" 1)).
Proof.
  split; [reflexivity | discriminate].
Qed.

(** ** Refreshing the store *)

(** [refresh] pops the seven names of its tuple and nothing else. *)
Lemma refresh_lookup (w : World) (name : string) :
  store (snd (refresh w)) !! name
  = if bool_decide (name ∈ cached) then None else store w !! name.
Proof.
  unfold refresh, bind, modify, ret. cbn.
  case_bool_decide as Hin.
  - unfold cached in Hin.
    repeat (apply elem_of_cons in Hin as [->|Hin];
            [ repeat (rewrite lookup_delete_ne by discriminate);
              apply lookup_delete_eq |]).
    now apply elem_of_nil in Hin.
  - unfold cached in Hin.
    repeat (rewrite lookup_delete_ne;
            [| intros <-; apply Hin; repeat constructor]).
    reflexivity.
Qed.

Lemma refresh_keeps_websites (w : World) :
  store (snd (refresh w)) !! "websites" = store w !! "websites".
Proof. now rewrite refresh_lookup. Qed.

(** C2 fails on the code: [websites] is a cached property but its name is
    not in the tuple [refresh] pops.  On the counting store: after
    [websites], [configs] and then [refresh], the entry of [configs] is
    gone and the next access fetches again, while the entry of [websites]
    is still there and the next access returns it without a search, though
    a search would now return another record. *)
Theorem refresh_leaves_websites_memoized :
  let w1 := snd (websites counting w_new) in
  let w2 := snd (configs counting w1) in
  let w3 := snd (refresh w2) in
  fst (websites counting w_new) = Ok [config "base" 0]
  ∧ store w3 !! "configs" = None
  ∧ configs counting w3
    = (Ok [config "base" 2],
       with_store (insert "configs" (Records [config "base" 2]))
         (add_fetched (GeneralManager "store/storeConfigs") w3))
  ∧ store w3 !! "websites" = Some (Records [config "base" 0])
  ∧ websites counting w3 = (Ok [config "base" 0], w3)
  ∧ search_result counting (fetched w3) (GeneralManager "store/websites")
    = [config "base" 2].
Proof.
  cbv zeta. repeat split; vm_compute; reflexivity.
Qed.

(** ** The shape of the store dictionary *)

Lemma entry_ok_mono (d d' : gmap string Cached) (name : string) (v : Cached) :
  d ⊆ d' → entry_ok d name v → entry_ok d' name v.
Proof.
  intros Hsub. unfold entry_ok.
  repeat match goal with
  | |- context [if ?b then _ else _] => destruct b
  end; try done;
  intros (l & Hl & ->); exists l; (split; [|done]);
  eapply lookup_weaken; eauto.
Qed.

Lemma store_ok_empty : store_ok ∅.
Proof. intros name v H. now rewrite lookup_empty in H. Qed.

Lemma store_ok_insert (d : gmap string Cached) (name : string) (v : Cached) :
  store_ok d → d !! name = None →
  entry_ok (<[name:=v]> d) name v →
  store_ok (<[name:=v]> d).
Proof.
  intros Hd Hnone Hv k u Hk.
  destruct (decide (name = k)) as [<-|Hne].
  - rewrite lookup_insert_eq in Hk. now injection Hk as <-.
  - rewrite lookup_insert_ne in Hk by done.
    eapply entry_ok_mono; [|now apply Hd].
    now apply insert_subseteq.
Qed.

Lemma store_ok_refresh (w : World) :
  store_ok (store w) → store_ok (store (snd (refresh w))).
Proof.
  intros Hw name v Hl. rewrite refresh_lookup in Hl.
  case_bool_decide as Hin; [discriminate|].
  specialize (Hw name v Hl). revert Hw. unfold entry_ok.
  repeat match goal with
  | |- context [String.eqb name ?k] =>
      destruct (String.eqb_spec name k) as [->|?]
  end; cbn [orb]; try done;
  exfalso; apply Hin; unfold cached; repeat constructor.
Qed.

Section StoreShape.

Variable backend : Backend.

Lemma cached_property_ok (names : list string) (name : string)
    (compute : M Cached) (w : World) :
  store_ok (store w) →
  (store w !! name = None →
   ∃ v w1, compute w = (Ok v, w1)
           ∧ store_ok (store w1) ∧ store w ⊆ store w1
           ∧ store w1 !! name = None
           ∧ entry_ok (<[name:=v]> (store w1)) name v
           ∧ ∀ k, k ∉ names → store w1 !! k = store w !! k) →
  ∃ v w', cached_property name compute w = (Ok v, w')
          ∧ memo_step (name :: names) w w' name v.
Proof.
  intros Hok Hmiss. unfold cached_property.
  destruct (store w !! name) as [v|] eqn:E.
  - exists v, w. repeat split; auto.
  - destruct (Hmiss eq_refl) as (v & w1 & Hc & Hok1 & Hsub & Hn & Hv & Hfr).
    exists v, (with_store (insert name v) w1).
    unfold bind, modify, ret. rewrite Hc. split; [reflexivity|].
    repeat split; cbn.
    + now apply store_ok_insert.
    + etransitivity; [exact Hsub|]. now apply insert_subseteq.
    + apply lookup_insert_eq.
    + rewrite E. intros [? [=]].
    + intros k Hk. rewrite not_elem_of_cons in Hk. destruct Hk as [Hk1 Hk2].
      rewrite lookup_insert_ne by done. now apply Hfr.
Qed.

Lemma typed_property_ok {A} (proj : Cached → M A) (wrap : A → Cached)
    (names : list string) (name : string) (compute : M Cached) (w : World) :
  (∀ a, proj (wrap a) = ret a) →
  (∀ d v, entry_ok d name v → ∃ a, v = wrap a) →
  (∃ v w', cached_property name compute w = (Ok v, w')
           ∧ memo_step names w w' name v) →
  ∃ a w', (let! v := cached_property name compute in proj v) w = (Ok a, w')
          ∧ memo_step names w w' name (wrap a).
Proof.
  intros Hproj Hshape (v & w' & Hc & Hm).
  destruct (Hshape (store w') v) as [a ->].
  { destruct Hm as (Hok & _ & Hl & _). now apply Hok. }
  exists a, w'. unfold bind. rewrite Hc, Hproj. now split.
Qed.

Lemma search_ok (name endpoint : string) (w : World) :
  (∀ d v, entry_ok d name v ↔ ∃ l, v = Records l) →
  manager endpoint = ret (GeneralManager endpoint) →
  store_ok (store w) →
  ∃ v w', cached_property name
            (let! m := manager endpoint in execute_search backend m) w
          = (Ok v, w')
          ∧ memo_step [name] w w' name v.
Proof.
  intros Hshape Hman Hok. apply cached_property_ok; [done|].
  intros Hnone. rewrite Hman. eexists _, _. split; [reflexivity|].
  cbn. repeat split; auto. apply Hshape. eauto.
Qed.

Lemma configs_ok (w : World) :
  store_ok (store w) →
  ∃ l w', configs backend w = (Ok l, w')
          ∧ memo_step ["configs"] w w' "configs" (Records l).
Proof.
  intros Hok. unfold configs.
  apply (typed_property_ok records Records); [done | |].
  - intros d v. unfold entry_ok. cbn. done.
  - apply search_ok; [|done|done]. intros d v. unfold entry_ok. cbn. done.
Qed.

Lemma views_ok (w : World) :
  store_ok (store w) →
  ∃ l w', views backend w = (Ok l, w')
          ∧ memo_step ["views"] w w' "views" (Records l).
Proof.
  intros Hok. unfold views.
  apply (typed_property_ok records Records); [done | |].
  - intros d v. unfold entry_ok. cbn. done.
  - apply search_ok; [|done|done]. intros d v. unfold entry_ok. cbn. done.
Qed.

Lemma websites_ok (w : World) :
  store_ok (store w) →
  ∃ l w', websites backend w = (Ok l, w')
          ∧ memo_step ["websites"] w w' "websites" (Records l).
Proof.
  intros Hok. unfold websites.
  apply (typed_property_ok records Records); [done | |].
  - intros d v. unfold entry_ok. cbn. done.
  - apply search_ok; [|done|done]. intros d v. unfold entry_ok. cbn. done.
Qed.

Lemma all_product_attributes_ok (w : World) :
  store_ok (store w) →
  ∃ l w', all_product_attributes backend w = (Ok l, w')
          ∧ memo_step ["all_product_attributes"] w w'
              "all_product_attributes" (Attributes l).
Proof.
  intros Hok. unfold all_product_attributes.
  apply (typed_property_ok attributes Attributes); [done | |].
  - intros d v. unfold entry_ok. cbn. done.
  - apply cached_property_ok; [done|]. intros Hnone.
    eexists _, _. split; [reflexivity|].
    cbn. repeat split; auto. unfold entry_ok. cbn. eauto.
Qed.

Lemma partition_ok (name : string) (sc : Scope) (w : World) :
  name ≠ "all_product_attributes" →
  (∀ d v, entry_ok d name v ↔
          ∃ l, d !! "all_product_attributes" = Some (Attributes l)
               ∧ v = Attributes (filter (λ a, attr_scope a = sc) l)) →
  store_ok (store w) →
  ∃ l w',
    (let! v := cached_property name
                 (let! l := all_product_attributes backend in
                  ret (Attributes (filter (λ a, attr_scope a = sc) l))) in
     attributes v) w = (Ok l, w')
    ∧ memo_step [name; "all_product_attributes"] w w' name (Attributes l).
Proof.
  intros Hname Hshape Hok.
  apply (typed_property_ok attributes Attributes); [done | |].
  - intros d v Hv. apply Hshape in Hv as (l & _ & ->). eauto.
  - apply cached_property_ok; [done|]. intros Hnone.
    destruct (all_product_attributes_ok w Hok)
      as (l & w1 & Hall & Hok1 & Hsub & Hl & _ & Hfr).
    exists (Attributes (filter (λ a, attr_scope a = sc) l)), w1.
    unfold bind. rewrite Hall. split; [reflexivity|].
    assert (store w1 !! name = None) as Hn1.
    { rewrite Hfr; [done|]. now apply not_elem_of_cons. }
    repeat split; auto.
    apply Hshape. exists l. split; [|done].
    now rewrite lookup_insert_ne.
Qed.

Lemma store_view_product_attributes_ok (w : World) :
  store_ok (store w) →
  ∃ l w', store_view_product_attributes backend w = (Ok l, w')
          ∧ memo_step ["store_view_product_attributes";
                       "all_product_attributes"] w w'
              "store_view_product_attributes" (Attributes l).
Proof.
  apply (partition_ok "store_view_product_attributes" STORE); [done|].
  intros d v. unfold entry_ok. cbn. done.
Qed.

Lemma website_product_attributes_ok (w : World) :
  store_ok (store w) →
  ∃ l w', website_product_attributes backend w = (Ok l, w')
          ∧ memo_step ["website_product_attributes";
                       "all_product_attributes"] w w'
              "website_product_attributes" (Attributes l).
Proof.
  apply (partition_ok "website_product_attributes" WEBSITE); [done|].
  intros d v. unfold entry_ok. cbn. done.
Qed.

Lemma global_product_attributes_ok (w : World) :
  store_ok (store w) →
  ∃ l w', global_product_attributes backend w = (Ok l, w')
          ∧ memo_step ["global_product_attributes";
                       "all_product_attributes"] w w'
              "global_product_attributes" (Attributes l).
Proof.
  apply (partition_ok "global_product_attributes" GLOBAL); [done|].
  intros d v. unfold entry_ok. cbn. done.
Qed.

Lemma website_attribute_codes_ok (w : World) :
  store_ok (store w) →
  ∃ cs w', website_attribute_codes backend w = (Ok cs, w')
           ∧ memo_step ["website_attribute_codes";
                        "website_product_attributes";
                        "all_product_attributes"] w w'
               "website_attribute_codes" (Codes cs).
Proof.
  intros Hok. unfold website_attribute_codes.
  apply (typed_property_ok codes Codes); [done | |].
  - intros d v. unfold entry_ok. cbn. intros (l & _ & ->). eauto.
  - apply cached_property_ok; [done|]. intros Hnone.
    destruct (website_product_attributes_ok w Hok)
      as (l & w1 & Hws & Hok1 & Hsub & Hl & _ & Hfr).
    exists (Codes (map attribute_code l)), w1.
    unfold bind. rewrite Hws. split; [reflexivity|].
    assert (store w1 !! "website_attribute_codes" = None) as Hn1.
    { rewrite Hfr; [done|].
      rewrite !not_elem_of_cons. repeat split; try done. apply not_elem_of_nil. }
    repeat split; auto.
    unfold entry_ok. cbn. exists l. split; [|done].
    now rewrite lookup_insert_ne.
Qed.

End StoreShape.

(** ** Filtering website attributes *)

Section FilterWebsiteAttrs.

Variable backend : Backend.

Lemma website_attribute_codes_hit (w : World) (cs : list string) :
  store w !! "website_attribute_codes" = Some (Codes cs) →
  website_attribute_codes backend w = (Ok cs, w).
Proof.
  intros H. unfold website_attribute_codes, bind, cached_property.
  now rewrite H.
Qed.

Lemma website_attribute_codes_memoized (w w1 : World) (cs : list string) :
  website_attribute_codes backend w = (Ok cs, w1) →
  store w1 !! "website_attribute_codes" = Some (Codes cs).
Proof.
  unfold website_attribute_codes, bind at 1, cached_property.
  destruct (store w !! "website_attribute_codes") as [v|] eqn:E.
  - destruct v; cbn; intros [= <- <-]; done.
  - unfold bind at 1 2.
    destruct (website_product_attributes backend w) as [[l|e|] w'];
      cbn; intros [= <- <-]. apply lookup_insert_eq.
Qed.

Lemma keep_website_attrs_hit {A} (w : World) (cs : list string)
    (items : list (string * A)) :
  store w !! "website_attribute_codes" = Some (Codes cs) →
  keep_website_attrs backend items w
  = (Ok (filter (λ kv, kv.1 ∈ cs) items), w).
Proof.
  intros H. induction items as [|[k v] rest IH]; [reflexivity|].
  cbn [keep_website_attrs]. unfold bind.
  rewrite (website_attribute_codes_hit _ _ H), IH. unfold ret.
  rewrite filter_cons. cbn [fst].
  case_bool_decide; case_decide; done.
Qed.

Lemma keep_website_attrs_eq {A} (w w1 : World) (cs : list string)
    (items : list (string * A)) :
  website_attribute_codes backend w = (Ok cs, w1) →
  keep_website_attrs backend items w
  = (Ok (filter (λ kv, kv.1 ∈ cs) items),
     match items with [] => w | _ :: _ => w1 end).
Proof.
  intros H. destruct items as [|[k v] rest]; [reflexivity|].
  pose proof (website_attribute_codes_memoized _ _ _ H) as Hm.
  cbn [keep_website_attrs]. unfold bind.
  rewrite H, (keep_website_attrs_hit _ _ _ Hm). unfold ret.
  rewrite filter_cons. cbn [fst].
  case_bool_decide; case_decide; done.
Qed.

Lemma filter_website_attrs_eq {A} (w w1 : World) (cs : list string)
    (data : gmap string A) :
  website_attribute_codes backend w = (Ok cs, w1) →
  filter_website_attrs backend data w
  = (Ok (filter (λ kv, kv.1 ∈ cs) data),
     match map_to_list data with [] => w | _ :: _ => w1 end).
Proof.
  intros H. unfold filter_website_attrs, bind.
  rewrite (keep_website_attrs_eq _ _ _ _ H). unfold ret.
  now rewrite <- map_filter_alt.
Qed.

(** Once the website attribute codes [cs] can be read,
    [filter_website_attrs data] returns the dictionary of the items of
    [data] whose key is in [cs]; filtering the result again returns it
    unchanged. *)
Lemma filter_website_attrs_spec {A} (w w1 : World) (cs : list string)
    (data : gmap string A) :
  website_attribute_codes backend w = (Ok cs, w1) →
  ∃ r w',
    filter_website_attrs backend data w = (Ok r, w')
    ∧ (w' = w ∨ w' = w1)
    ∧ r ⊆ data
    ∧ (∀ k v, r !! k = Some v ↔ data !! k = Some v ∧ k ∈ cs)
    ∧ filter_website_attrs backend r w' = (Ok r, w').
Proof.
  intros H.
  exists (filter (λ kv, kv.1 ∈ cs) data),
         (match map_to_list data with [] => w | _ :: _ => w1 end).
  pose proof (@filter_website_attrs_eq A) as Hrun.
  split; [now apply Hrun|].
  split; [destruct (map_to_list data); auto|].
  split; [apply map_filter_subseteq|].
  split; [intros k v; now rewrite map_lookup_filter_Some|].
  destruct (map_to_list data) as [|kv rest] eqn:E.
  - apply map_to_list_empty_iff in E as ->.
    rewrite map_filter_empty. unfold filter_website_attrs, bind.
    now rewrite map_to_list_empty.
  - pose proof (website_attribute_codes_memoized _ _ _ H) as Hm.
    rewrite (Hrun w1 w1 cs) by now apply website_attribute_codes_hit.
    rewrite map_filter_filter_r by done.
    now destruct (map_to_list (filter _ data)).
Qed.

End FilterWebsiteAttrs.

(** The example of the docstring. *)
Example filter_website_attrs_price :
  fst (filter_website_attrs catalog
         (<["price" := JNum 12]> (<["meta_title" := JStr "My Product"]> ∅))
         w_new)
  = Ok (<["price" := JNum 12]> ∅).
Proof. vm_compute. reflexivity. Qed.

(** ** The scope partitions *)

Lemma scope_partition (l : list ProductAttribute) :
  filter (λ a, attr_scope a = STORE) l
  ++ filter (λ a, attr_scope a = WEBSITE) l
  ++ filter (λ a, attr_scope a = GLOBAL) l ≡ₚ l.
Proof.
  induction l as [|a l IH]; [done|].
  rewrite !filter_cons.
  destruct a as [c []]; repeat case_decide; try done; cbn.
  - rewrite <- Permutation_middle, <- Permutation_middle. now constructor.
  - rewrite <- Permutation_middle. now constructor.
  - now constructor.
Qed.

Section Partitions.

Variable backend : Backend.

Lemma all_product_attributes_hit (w : World) (l : list ProductAttribute) :
  store w !! "all_product_attributes" = Some (Attributes l) →
  all_product_attributes backend w = (Ok l, w).
Proof.
  intros H. unfold all_product_attributes, bind, cached_property.
  now rewrite H.
Qed.

Lemma store_view_product_attributes_hit (w : World)
    (l : list ProductAttribute) :
  store w !! "store_view_product_attributes" = Some (Attributes l) →
  store_view_product_attributes backend w = (Ok l, w).
Proof.
  intros H. unfold store_view_product_attributes, bind, cached_property.
  now rewrite H.
Qed.

Lemma website_product_attributes_hit (w : World) (l : list ProductAttribute) :
  store w !! "website_product_attributes" = Some (Attributes l) →
  website_product_attributes backend w = (Ok l, w).
Proof.
  intros H. unfold website_product_attributes, bind, cached_property.
  now rewrite H.
Qed.

Lemma global_product_attributes_hit (w : World) (l : list ProductAttribute) :
  store w !! "global_product_attributes" = Some (Attributes l) →
  global_product_attributes backend w = (Ok l, w).
Proof.
  intros H. unfold global_product_attributes, bind, cached_property.
  now rewrite H.
Qed.

(** Every call keeps the dictionary well shaped, and every call but
    [refresh] keeps what is memoized. *)
Lemma after_ok (c : StoreCall) (w : World) :
  store_ok (store w) →
  store_ok (store (after backend c w))
  ∧ (c ≠ call_refresh → store w ⊆ store (after backend c w)).
Proof.
  intros Hok. destruct c; cbn [after].
  - destruct (configs_ok backend w Hok) as (l & w' & H & Hok' & Hsub & _).
    unfold is_single_store, bind. rewrite H. cbn. auto.
  - destruct (configs_ok backend w Hok) as (l & w' & H & Hok' & Hsub & _).
    rewrite (active_world _ _ _ _ H). auto.
  - destruct (configs_ok backend w Hok) as (l & w' & -> & Hok' & Hsub & _).
    auto.
  - destruct (views_ok backend w Hok) as (l & w' & -> & Hok' & Hsub & _).
    auto.
  - destruct (websites_ok backend w Hok) as (l & w' & -> & Hok' & Hsub & _).
    auto.
  - destruct (all_product_attributes_ok backend w Hok)
      as (l & w' & -> & Hok' & Hsub & _). auto.
  - destruct (store_view_product_attributes_ok backend w Hok)
      as (l & w' & -> & Hok' & Hsub & _). auto.
  - destruct (website_product_attributes_ok backend w Hok)
      as (l & w' & -> & Hok' & Hsub & _). auto.
  - destruct (global_product_attributes_ok backend w Hok)
      as (l & w' & -> & Hok' & Hsub & _). auto.
  - destruct (website_attribute_codes_ok backend w Hok)
      as (l & w' & -> & Hok' & Hsub & _). auto.
  - destruct (website_attribute_codes_ok backend w Hok)
      as (cs & w1 & H & Hok' & Hsub & _).
    rewrite (filter_website_attrs_eq backend w w1 cs attribute_data H).
    destruct (map_to_list attribute_data); cbn; auto.
  - split; [now apply store_ok_refresh | done].
Qed.

Lemma after_all_ok (cs : list StoreCall) (w : World) :
  store_ok (store w) →
  store_ok (store (after_all backend cs w))
  ∧ (call_refresh ∉ cs → store w ⊆ store (after_all backend cs w)).
Proof.
  revert w. induction cs as [|c cs IH]; intros w Hok; [done|].
  cbn. destruct (after_ok c w Hok) as [Hok1 Hsub1].
  destruct (IH _ Hok1) as [Hok2 Hsub2]. split; [done|].
  intros Hnot. apply not_elem_of_cons in Hnot as [Hc Hcs].
  etransitivity; [apply Hsub1; congruence | now apply Hsub2].
Qed.

(** C6: in a store used through its methods, from an empty dictionary on,
    the three scope partitions can be read, they are pairwise disjoint and
    together they are, up to order, the memoized full attribute list; and
    any further calls other than [refresh] leave all four as they are,
    read back without a fetch. *)
Theorem partitions_of_memoized_attributes (w0 : World)
    (calls calls' : list StoreCall) :
  store w0 = ∅ →
  call_refresh ∉ calls' →
  let w := after_all backend calls w0 in
  ∃ sv ws gl all w1 w2 w3,
    store_view_product_attributes backend w = (Ok sv, w1)
    ∧ website_product_attributes backend w1 = (Ok ws, w2)
    ∧ global_product_attributes backend w2 = (Ok gl, w3)
    ∧ all_product_attributes backend w3 = (Ok all, w3)
    ∧ (∀ a, a ∈ sv → (a ∉ ws) ∧ (a ∉ gl))
    ∧ (∀ a, a ∈ ws → a ∉ gl)
    ∧ (sv ++ ws ++ gl)%list ≡ₚ all
    ∧ let w' := after_all backend calls' w3 in
      store_view_product_attributes backend w' = (Ok sv, w')
      ∧ website_product_attributes backend w' = (Ok ws, w')
      ∧ global_product_attributes backend w' = (Ok gl, w')
      ∧ all_product_attributes backend w' = (Ok all, w').
Proof.
  intros Hempty Hcalls' w.
  assert (Hok : store_ok (store w)).
  { apply after_all_ok. rewrite Hempty. apply store_ok_empty. }
  destruct (store_view_product_attributes_ok backend w Hok)
    as (sv & w1 & Hsv & Hok1 & _ & Hl1 & _).
  destruct (website_product_attributes_ok backend w1 Hok1)
    as (ws & w2 & Hws & Hok2 & Hsub2 & Hl2 & _).
  destruct (global_product_attributes_ok backend w2 Hok2)
    as (gl & w3 & Hgl & Hok3 & Hsub3 & Hl3 & _).
  pose proof (lookup_weaken _ _ _ _ Hl2 Hsub3) as Hl2'.
  pose proof (lookup_weaken _ _ _ _
                (lookup_weaken _ _ _ _ Hl1 Hsub2) Hsub3) as Hl1'.
  pose proof (Hok3 _ _ Hl3) as (all & Hall & Egl). cbn in Hall, Egl.
  pose proof (Hok3 _ _ Hl2') as (all2 & Hall2 & Ews). cbn in Hall2, Ews.
  pose proof (Hok3 _ _ Hl1') as (all1 & Hall1 & Esv). cbn in Hall1, Esv.
  assert (all2 = all) as -> by congruence.
  assert (all1 = all) as -> by congruence.
  injection Egl as ->. injection Ews as ->. injection Esv as ->.
  exists (filter (λ a, attr_scope a = STORE) all),
         (filter (λ a, attr_scope a = WEBSITE) all),
         (filter (λ a, attr_scope a = GLOBAL) all), all, w1, w2, w3.
  split; [done|]. split; [done|]. split; [done|].
  split; [now apply all_product_attributes_hit|].
  split.
  { intros a Ha. apply list_elem_of_filter in Ha as [Ha _].
    split; intros Hb; apply list_elem_of_filter in Hb as [Hb _]; congruence. }
  split.
  { intros a Ha. apply list_elem_of_filter in Ha as [Ha _].
    intros Hb; apply list_elem_of_filter in Hb as [Hb _]; congruence. }
  split; [apply scope_partition|].
  destruct (after_all_ok calls' w3 Hok3) as [_ Hsub]. specialize (Hsub Hcalls').
  cbv zeta. repeat split.
  - apply store_view_product_attributes_hit. eapply lookup_weaken; eauto.
  - apply website_product_attributes_hit. eapply lookup_weaken; eauto.
  - apply global_product_attributes_hit. eapply lookup_weaken; eauto.
  - apply all_product_attributes_hit. eapply lookup_weaken; eauto.
Qed.

Lemma website_codes_of_store (d : gmap string Cached) (cs : list string) :
  store_ok d →
  d !! "website_attribute_codes" = Some (Codes cs) →
  ∃ all, d !! "all_product_attributes" = Some (Attributes all)
         ∧ cs = map attribute_code
                  (filter (λ a, attr_scope a = WEBSITE) all).
Proof.
  intros Hok Hcs.
  pose proof (Hok _ _ Hcs) as (ws & Hws & [= ->]). cbn in Hws.
  pose proof (Hok _ _ Hws) as (all & Hall & [= ->]). cbn in Hall.
  eauto.
Qed.

(** C10: in a store used through its methods, from an empty dictionary
    on, [filter_website_attrs data] returns a dictionary [r] whose items
    are exactly the items of [data] whose key is one of the website
    attribute codes [cs], the codes of the attributes of website scope in
    the memoized full list; so [r] is a sub-dictionary of [data], and
    [data], a value the method only reads, is what it was.  Filtering [r]
    again returns [r]. *)
Theorem filter_website_attrs_submap {A} (w0 : World)
    (calls : list StoreCall) (data : gmap string A) :
  store w0 = ∅ →
  let w := after_all backend calls w0 in
  ∃ cs w1 all r w',
    website_attribute_codes backend w = (Ok cs, w1)
    ∧ all_product_attributes backend w1 = (Ok all, w1)
    ∧ (∀ k, k ∈ cs ↔
            ∃ a, a ∈ all ∧ attr_scope a = WEBSITE ∧ attribute_code a = k)
    ∧ filter_website_attrs backend data w = (Ok r, w')
    ∧ (w' = w ∨ w' = w1)
    ∧ r ⊆ data
    ∧ (∀ k v, r !! k = Some v ↔ data !! k = Some v ∧ k ∈ cs)
    ∧ filter_website_attrs backend r w' = (Ok r, w').
Proof.
  intros Hempty w.
  assert (Hok : store_ok (store w)).
  { apply after_all_ok. rewrite Hempty. apply store_ok_empty. }
  destruct (website_attribute_codes_ok backend w Hok)
    as (cs & w1 & Hcs & Hok1 & _ & Hl & _).
  destruct (website_codes_of_store _ _ Hok1 Hl) as (all & Hall & ->).
  destruct (filter_website_attrs_spec backend w w1 _ data Hcs)
    as (r & w' & Hr & Hw' & Hsub & Hitems & Hidem).
  eexists _, w1, all, r, w'.
  split; [exact Hcs|]. split; [now apply all_product_attributes_hit|].
  split; [|auto].
  intros k. rewrite list_elem_of_In, in_map_iff. split.
  - intros (a & <- & Ha). apply list_elem_of_In, list_elem_of_filter in Ha.
    exists a. tauto.
  - intros (a & Ha & Hs & <-). exists a. split; [done|].
    apply list_elem_of_In, list_elem_of_filter. tauto.
Qed.

End Partitions.

Lemma filter_website_attrs_submap_witness :
  let w := after_all catalog [call_configs; call_refresh] w_new in
  let data : gmap string JSON :=
    <["price" := JNum 12]> (<["meta_title" := JStr "x"]> ∅) in
  ∃ cs w1 all r w',
    website_attribute_codes catalog w = (Ok cs, w1)
    ∧ all_product_attributes catalog w1 = (Ok all, w1)
    ∧ (∀ k, k ∈ cs ↔
            ∃ a, a ∈ all ∧ attr_scope a = WEBSITE ∧ attribute_code a = k)
    ∧ filter_website_attrs catalog data w = (Ok r, w')
    ∧ (w' = w ∨ w' = w1)
    ∧ r ⊆ data
    ∧ (∀ k v, r !! k = Some v ↔ data !! k = Some v ∧ k ∈ cs)
    ∧ filter_website_attrs catalog r w' = (Ok r, w').
Proof.
  apply (filter_website_attrs_submap catalog w_new). reflexivity.
Defined.

Lemma partitions_of_memoized_attributes_witness :
  let w := after_all catalog [call_website_attribute_codes; call_refresh] w_new in
  ∃ sv ws gl all w1 w2 w3,
    store_view_product_attributes catalog w = (Ok sv, w1)
    ∧ website_product_attributes catalog w1 = (Ok ws, w2)
    ∧ global_product_attributes catalog w2 = (Ok gl, w3)
    ∧ all_product_attributes catalog w3 = (Ok all, w3)
    ∧ (∀ a, a ∈ sv → (a ∉ ws) ∧ (a ∉ gl))
    ∧ (∀ a, a ∈ ws → a ∉ gl)
    ∧ (sv ++ ws ++ gl)%list ≡ₚ all
    ∧ let w' := after_all catalog
                  [call_active; call_websites; call_website_attribute_codes;
                   call_filter_website_attrs (<["price" := JNum 12]> ∅)] w3 in
      store_view_product_attributes catalog w' = (Ok sv, w')
      ∧ website_product_attributes catalog w' = (Ok ws, w')
      ∧ global_product_attributes catalog w' = (Ok gl, w')
      ∧ all_product_attributes catalog w' = (Ok all, w').
Proof.
  apply (partitions_of_memoized_attributes catalog w_new); [reflexivity|].
  intros H.
  repeat (apply elem_of_cons in H as [H|H]; [discriminate|]).
  now apply elem_of_nil in H.
Defined.

(** The partitions of the catalog store, and what [refresh] does to them. *)
Example partitions_of_catalog :
  let w1 := snd (all_product_attributes catalog w_new) in
  fst (store_view_product_attributes catalog w1) = Ok [meta_title]
  ∧ fst (website_product_attributes catalog w1) = Ok [price]
  ∧ fst (global_product_attributes catalog w1) = Ok [color]
  ∧ fetched (snd (global_product_attributes catalog w1)) = fetched w1
  ∧ store (snd (refresh (snd (global_product_attributes catalog w1))))
      !! "global_product_attributes" = None.
Proof. cbv zeta. repeat split; vm_compute; reflexivity. Qed.

(** ** Authentication *)

Lemma bind_Ok {A B} (m : M A) (k : A → M B) (w w' : World) (b : B) :
  bind m k w = (Ok b, w') →
  ∃ a w1, m w = (Ok a, w1) ∧ k a w1 = (Ok b, w').
Proof.
  unfold bind. destruct (m w) as [[a|e|] w1]; [eauto | discriminate..].
Qed.

(** C8: with neither a password nor an API key, [authenticate] raises a
    [ValueError] and sends nothing; unless the retries are already used
    up, it is the error about the missing credentials. *)
Theorem authenticate_without_credentials (backend : Backend) (fuel : nat)
    (w : World) :
  password (client w) = None →
  api_key (client w) = None →
  ∃ msg w',
    authenticate backend (S fuel) w = (Raise (ValueError msg), w')
    ∧ sent w' = sent w
    ∧ fetched w' = fetched w
    ∧ (authentication_retries (client w) ≠ 3%Z →
       msg = "Ether password or api key must be provided.").
Proof.
  intros Hpw Hkey. cbn [authenticate]. unfold bind at 1, get_client.
  destruct (authentication_retries (client w) =? 3)%Z eqn:E.
  - eexists _, w. split; [reflexivity|]. repeat split.
    apply Z.eqb_eq in E. congruence.
  - unfold bind at 1, modify. rewrite Hpw, Hkey. cbn.
    eexists _, _. split; [reflexivity|]. repeat split.
Qed.

Lemma authenticate_without_credentials_witness :
  ∃ msg w',
    authenticate (answering 200) 1 w_new = (Raise (ValueError msg), w')
    ∧ sent w' = sent w_new
    ∧ fetched w' = fetched w_new
    ∧ (authentication_retries (client w_new) ≠ 3%Z →
       msg = "Ether password or api key must be provided.").
Proof.
  apply (authenticate_without_credentials (answering 200) 0 w_new);
    reflexivity.
Defined.


Section Dispatch.

Variable backend : Backend.

Lemma token_hit (authenticate : M bool) (w : World) (tok : string) :
  ACCESS_TOKEN (client w) = Some (Some tok) → tok ≠ "" →
  token authenticate w = (Ok (Some tok), w).
Proof.
  intros H Htok. unfold token, bind, get_client. rewrite H.
  destruct tok; [done|]. cbn. now rewrite H.
Qed.

Lemma headers_hit (authenticate : M bool) (w : World) (tok : string) :
  ACCESS_TOKEN (client w) = Some (Some tok) → tok ≠ "" →
  headers authenticate w = (Ok (bearer (client w) tok), w).
Proof.
  intros H Htok. unfold headers, bind at 1.
  now rewrite (token_hit _ _ _ H Htok).
Qed.

(** The first half of [request]: with a token at hand, the request goes
    out once, and the answer decides what follows. *)
Lemma request_sends (fuel : nat) (method url : string)
    (payload : option dict) (w : World) (tok : string) :
  ACCESS_TOKEN (client w) = Some (Some tok) → tok ≠ "" →
  sendable (Py.upper method) payload = true →
  let m := Py.upper method in
  let req := wire (client w) tok m url payload in
  let resp := respond backend (sent w) req in
  request backend (S fuel) method url payload w =
  if (status_code resp =? 401)%Z then
    (let! _ := logger debug_reauthenticate in
     let! _ := authenticate backend fuel in
     request backend fuel m url payload) (add_sent req w)
  else
    (let! _ := (if negb (status_code resp =? 200)%Z
                then logger (error_request_failed url (status_code resp))
                else ret tt) in
     ret resp) (add_sent req w).
Proof.
  intros H Htok Hs m req resp. cbn [request]. fold m.
  unfold sendable in Hs. fold m in Hs.
  subst req resp. unfold wire, wire_json.
  unfold bind at 1.
  destruct (String.eqb m "GET" || String.eqb m "DELETE") eqn:E1.
  - unfold bind at 1. rewrite (headers_hit _ _ _ H Htok).
    unfold send. cbv beta iota.
    destruct (status_code _ =? 401)%Z; reflexivity.
  - cbn [orb] in Hs. apply andb_prop in Hs as [-> Hp]. rewrite Hp.
    unfold bind at 1. rewrite (headers_hit _ _ _ H Htok).
    unfold send. cbv beta iota.
    destruct (status_code _ =? 401)%Z; reflexivity.
Qed.

(** C3, as the code has it: when the login is accepted with the token
    [tok] and the validation call is answered with a status [s] other
    than 200 and 401, [authenticate] raises the [AuthenticationError] of a
    failed validation and the retry counter stays incremented; the token
    stays in [ACCESS_TOKEN], and the [token] property goes on returning it
    without authenticating again. *)
Theorem authenticate_validation_rejected (fuel : nat)
    (w : World) (tok : string) (r : Response) :
  let c := client w in
  authentication_method c = PASSWORD →
  authentication_retries c ≠ 3%Z →
  ¬ (password c = None ∧ api_key c = None) →
  ok (respond backend (sent w) (login_request c)) = true →
  json (respond backend (sent w) (login_request c)) = tok →
  tok ≠ "" →
  respond backend (login_request c :: sent w) (validation_request c tok) = r →
  status_code r ≠ 200%Z →
  status_code r ≠ 401%Z →
  ∃ w',
    authenticate backend (S (S fuel)) w
    = (Raise (AuthenticationError (Some "Token validation failed") None), w')
    ∧ authentication_retries (client w') = (authentication_retries c + 1)%Z
    ∧ sent w' = validation_request c tok :: login_request c :: sent w
    ∧ ACCESS_TOKEN (client w') = Some (Some tok)
    ∧ ∀ reauthenticate, token reauthenticate w' = (Ok (Some tok), w').
Proof.
  intros c Hmethod Hretries Hpw Hok Hjson Htok Hr H200 H401.
  cbn [authenticate]. unfold bind at 1, get_client. fold c.
  rewrite (proj2 (Z.eqb_neq _ _) Hretries).
  unfold bind at 1, modify.
  replace (bool_decide (password c = None) && bool_decide (api_key c = None))
    with false
    by (symmetry; apply andb_false_iff;
        destruct (decide (password c = None));
        [right; apply bool_decide_eq_false_2; tauto
        |left; now apply bool_decide_eq_false_2]).
  rewrite Hmethod.
  fold (login_request c).
  unfold bind at 1. unfold bind at 1, logger, modify.
  unfold bind at 1, send. cbn [sent add_log with_client].
  rewrite Hok, Hjson.
  unfold bind at 1, logger, modify.
  unfold bind at 1, except_AuthenticationError, validate.
  unfold bind at 1, get_client.
  unfold bind at 1, get.
  match goal with
  | |- context [request backend (S fuel) "GET" _ None ?W] => set (world := W)
  end.
  match goal with
  | |- context [request backend (S fuel) "GET" ?u None world] =>
      assert (Hresp : respond backend (sent world)
                        (wire (client world) tok (Py.upper "GET") u None) = r)
        by (rewrite <- Hr; reflexivity);
      rewrite (request_sends fuel "GET" u None world tok eq_refl Htok
                 eq_refl)
  end.
  cbv zeta. rewrite Hresp.
  rewrite (proj2 (Z.eqb_neq _ _) H401), (proj2 (Z.eqb_neq _ _) H200).
  cbn [negb]. unfold bind, logger, modify, ret, get_client, raise.
  rewrite (proj2 (Z.eqb_neq _ _) H200).
  eexists. split; [reflexivity|].
  split; [reflexivity|]. split; [reflexivity|]. split; [reflexivity|].
  intros reauthenticate. now apply token_hit.
Qed.

Lemma upper_ascii_idemp (c : ascii) :
  Py.upper_ascii (Py.upper_ascii c) = Py.upper_ascii c.
Proof. destruct c as [[] [] [] [] [] [] [] []]; reflexivity. Qed.

Lemma upper_idemp (s : string) : Py.upper (Py.upper s) = Py.upper s.
Proof.
  induction s as [|c s IH]; [reflexivity|].
  cbn [Py.upper]. now rewrite upper_ascii_idemp, IH.
Qed.

End Dispatch.

Lemma authenticate_validation_rejected_witness :
  ∃ w',
    authenticate (answering 403) 2 w_password
    = (Raise (AuthenticationError (Some "Token validation failed") None), w')
    ∧ authentication_retries (client w') = 1%Z
    ∧ sent w' = [validation_request (client w_password) "tok";
                 login_request (client w_password)]
    ∧ ACCESS_TOKEN (client w') = Some (Some "tok")
    ∧ ∀ reauthenticate, token reauthenticate w' = (Ok (Some "tok"), w').
Proof.
  apply (authenticate_validation_rejected (answering 403) 0 w_password "tok"
           (response 403)); try done.
  now intros [[=] _].
Defined.

(** C3 as stated fails twice over.  When the validation call
    is answered with 403, [authenticate] raises but the token of the login
    stays in [ACCESS_TOKEN], and the next request carries it without a new
    login.  When the validation call is answered with 401, the dispatcher
    authenticates again, and with a server that keeps answering 401 the
    error that comes out is the [ValueError] of the used-up retries. *)
Lemma failed_validation_keeps_token :
  let w' := snd (authenticate (answering 403) 2 w_password) in
  fst (authenticate (answering 403) 2 w_password)
    = Raise (AuthenticationError (Some "Token validation failed") None)
  ∧ ACCESS_TOKEN (client w') = Some (Some "tok")
  ∧ sent (snd (request (answering 403) 2 "GET" orders_url None w'))
    = wire (client w') "tok" "GET" orders_url None :: sent w'
  ∧ fst (authenticate (answering 401) 8 w_password)
    = Raise (ValueError "Max attends of authentication attempts exceeded").
Proof.
  cbv zeta. repeat split; vm_compute; reflexivity.
Qed.

(** A second cycle.  On a server that answers 401 to the first two
    requests for the orders, the call logs in twice, asks for the orders
    three times, and returns the third answer: the replay that is answered
    with 401 starts another re-authentication and another replay. *)
Example request_replays_twice :
  let run := request (expired 2 orders_url) 6 "GET" orders_url None
               w_logged_in in
  fst run = Ok (response 200)
  ∧ length (List.filter is_login (sent (snd run))) = 2%nat
  ∧ length (List.filter (is_request_to orders_url) (sent (snd run))) = 3%nat.
Proof.
  cbv zeta. repeat split; vm_compute; reflexivity.
Qed.

(** ** A request that is answered with 401 every time *)

Section Unbounded.

Variable backend : Backend.

(** [validate], with a token at hand and an answer other than 401. *)
Lemma validate_eq (fuel : nat) (w : World) (tok : string) :
  ACCESS_TOKEN (client w) = Some (Some tok) → tok ≠ "" →
  let c := client w in
  let req := validation_request c tok in
  let resp := respond backend (sent w) req in
  status_code resp ≠ 401%Z →
  validate (request backend (S fuel)) w =
  if (status_code resp =? 200)%Z
  then (Ok true,
        add_log (debug_token_validated (username c) (domain c))
          (add_sent req w))
  else (Raise (AuthenticationError (Some (validation_failed c)) (Some resp)),
        add_log (error_request_failed (url_for c "store/websites" None)
                   (status_code resp))
          (add_sent req w)).
Proof.
  intros Htoken Htok c req resp H401.
  unfold validate. unfold bind at 1, get_client, get. fold c.
  unfold bind at 1.
  rewrite (request_sends backend fuel "GET" (url_for c "store/websites" None)
             None w tok Htoken Htok eq_refl).
  cbv zeta.
  change (wire (client w) tok (Py.upper "GET")
            (url_for c "store/websites" None) None) with req.
  fold resp. rewrite (proj2 (Z.eqb_neq _ _) H401).
  destruct (status_code resp =? 200)%Z eqn:E.
  - unfold bind, logger, modify, ret, get_client. cbn [negb]. now rewrite E.
  - unfold bind, logger, modify, ret, get_client, raise. cbn [negb].
    now rewrite E.
Qed.

(** The start of [authenticate]: the check of the counter, the increment
    and the check of the credentials. *)
Lemma authenticate_starts (fuel : nat) (w : World) :
  authentication_retries (client w) ≠ 3%Z →
  ¬ (password (client w) = None ∧ api_key (client w) = None) →
  let c := client w in
  authenticate backend (S fuel) w =
  (let! _ :=
     (match authentication_method c with
      | TOKEN => modify (with_client (set_ACCESS_TOKEN (Some (api_key c))))
      | PASSWORD =>
          let! _ := logger (info_authenticating (username c) (domain c)) in
          let! response := send backend (login_request c) in
          if ok response then
            modify (with_client
                      (set_ACCESS_TOKEN (Some (Some (json response)))))
          else raise (AuthenticationError None (Some response))
      end) in
   let! _ := logger debug_validating_token in
   let! _ := except_AuthenticationError (validate (request backend fuel))
               (λ _ _, raise (AuthenticationError
                                (Some "Token validation failed") None)) in
   let! _ := logger (info_authenticated (domain c)) in
   let! _ := modify (with_client (set_authentication_retries 0)) in
   ret true)
    (with_client (set_authentication_retries
                    (authentication_retries c + 1)) w).
Proof.
  intros Hretries Hpw c. subst c. cbn [authenticate].
  unfold bind at 1, get_client.
  rewrite (proj2 (Z.eqb_neq _ _) Hretries).
  unfold bind at 1, modify.
  replace (bool_decide (password (client w) = None)
           && bool_decide (api_key (client w) = None))
    with false; [reflexivity|].
  symmetry; apply andb_false_iff.
  destruct (decide (password (client w) = None));
    [right; apply bool_decide_eq_false_2; tauto
    |left; now apply bool_decide_eq_false_2].
Qed.

(** A re-authentication that the server accepts, with the password
    method: the login and the validation call are sent, the new token is
    stored, and the retry counter is set back to 0.  With fuel for the
    login only, the call does not come to its end. *)
Lemma authenticate_again (fuel : nat) (w : World) :
  let c := client w in
  let login := respond backend (sent w) (login_request c) in
  authentication_method c = PASSWORD →
  authentication_retries c ≠ 3%Z →
  ¬ (password c = None ∧ api_key c = None) →
  ok login = true → json login ≠ "" →
  status_code (respond backend (login_request c :: sent w)
                 (validation_request c (json login))) = 200%Z →
  (∃ w', authenticate backend 1 w = (OutOfFuel, w')
         ∧ sent w' = login_request c :: sent w)
  ∧ ∃ w', authenticate backend (S (S fuel)) w = (Ok true, w')
          ∧ client w'
            = set_authentication_retries 0
                (set_ACCESS_TOKEN (Some (Some (json login))) c)
          ∧ sent w'
            = validation_request c (json login) :: login_request c :: sent w.
Proof.
  intros c login Hmethod Hretries Hpw Hok Htok H200. split.
  - rewrite (authenticate_starts 0 w Hretries Hpw).
    cbv zeta. fold c. rewrite Hmethod.
    unfold bind at 1. unfold bind at 1, logger, modify.
    unfold bind at 1, send. cbn [sent add_log with_client].
    fold login. rewrite Hok.
    eexists. split; [reflexivity|]. reflexivity.
  - rewrite (authenticate_starts (S fuel) w Hretries Hpw).
    cbv zeta. fold c. rewrite Hmethod.
    unfold bind at 1. unfold bind at 1, logger, modify.
    unfold bind at 1, send. cbn [sent add_log with_client].
    fold login. rewrite Hok.
    unfold bind at 1, logger, modify.
    unfold bind at 1, except_AuthenticationError.
    match goal with
    | |- context [validate _ ?W] =>
        pose proof (validate_eq fuel W (json login) eq_refl Htok) as Hv
    end.
    cbv zeta in Hv.
    change (respond backend _ _) with
      (respond backend (login_request c :: sent w)
         (validation_request c (json login))) in Hv.
    rewrite H200 in Hv. rewrite (Hv ltac:(done)). cbn [Z.eqb Pos.eqb].
    unfold bind, logger, modify, ret.
    eexists. split; [reflexivity|]. split; reflexivity.
Qed.

(** The loop of [request] on a server that rejects forever: whatever the
    fuel, it is used up, with a replay and a login sent for each level. *)
Lemma request_loops (c : Client) (method url : string)
    (payload : option dict) :
  Py.upper method = method →
  sendable method payload = true →
  authentication_method c = PASSWORD →
  ¬ (password c = None ∧ api_key c = None) →
  rejects_forever backend c method url payload →
  ∀ (fuel : nat) (w : World) (tok : string) (n : Z),
    client w
    = set_authentication_retries n (set_ACCESS_TOKEN (Some (Some tok)) c) →
    tok ≠ "" → n ≠ 3%Z →
    ∃ w' new,
      request backend fuel method url payload w = (OutOfFuel, w')
      ∧ sent w' = (new ++ sent w)%list
      ∧ (fuel - 1 ≤ length (List.filter (is_request_to url) new))%nat
      ∧ (fuel - 1 ≤ length (List.filter is_login new))%nat.
Proof.
  intros Hm Hs Hmethod Hpw Hserver.
  induction fuel as [|fuel IH]; intros w tok n Hc Htok Hn.
  - exists w, []. split; [reflexivity|]. split; [reflexivity|].
    cbn. split; lia.
  - destruct w as [cl st se fe lo]. cbn [client] in Hc. subst cl.
    match goal with |- context [request _ _ _ _ _ ?W] => set (w := W) end.
    assert (Hs' : sendable (Py.upper method) payload = true)
      by now rewrite Hm.
    rewrite (request_sends backend fuel method url payload w tok
               eq_refl Htok Hs').
    cbv zeta. rewrite Hm.
    set (req := wire (client w) tok method url payload).
    assert (H401 : status_code (respond backend (sent w) req) = 401%Z)
      by exact (proj2 (proj2 (proj2 (Hserver (sent w) tok)))).
    rewrite H401. cbn [Z.eqb Pos.eqb].
    unfold bind at 1, logger, modify.
    assert (Hself : is_request_to url req = true) by apply String.eqb_refl.
    clearbody req.
    set (w1 := add_log debug_reauthenticate (add_sent req w)).
    destruct (Hserver (sent w1) tok) as (Hok & Hjson & _ & _).
    destruct (Hserver (login_request c :: sent w1)
                (json (respond backend (sent w1) (login_request c))))
      as (_ & _ & H200 & _).
    destruct (authenticate_again (fuel - 2) w1 Hmethod Hn Hpw Hok Hjson H200)
      as [(wa & Ha & Hsa) (w2 & Hb & Hcl & Hsb)].
    destruct fuel as [|[|fuel]].
    + exists w1, [req]. split; [reflexivity|]. split; [reflexivity|].
      cbn [List.filter]. rewrite Hself. cbn. split; lia.
    + exists wa, [login_request c; req].
      unfold bind at 1. rewrite Ha.
      split; [reflexivity|]. split; [exact Hsa|].
      cbn [List.filter is_login login_request is_request_to].
      rewrite Hself. cbn. split; lia.
    + replace (S (S fuel) - 2)%nat with fuel in Hb by lia.
      destruct (IH w2 _ 0%Z Hcl Hjson ltac:(done))
        as (w' & new & Hrun & Hsent & Hreq & Hlogin).
      exists w', (new ++ [validation_request c
                            (json (respond backend (sent w1)
                                     (login_request c)));
                          login_request c; req])%list.
      unfold bind at 1. rewrite Hb.
      split; [exact Hrun|].
      split; [rewrite Hsent, Hsb; now rewrite <- app_assoc|].
      rewrite !List.filter_app, !length_app.
      cbn [List.filter is_login login_request validation_request
             is_request_to].
      rewrite Hself.
      destruct (String.eqb _ url); cbn [length] in *; split; lia.
Qed.

(** C4 fails on the code.  Take a client that holds a token and uses the
    password method, and a server that accepts its login and its
    validation call whenever it tries, but answers 401 to one request
    every time.  The first 401 makes [request] authenticate; the
    authentication goes through and sets the retry counter back to 0;
    the replay is answered with 401, and [request] authenticates and
    replays again, and so on.  Whatever depth of calls is allowed, the
    call uses it up: it never returns and never raises, no
    [AuthenticationError] either, and the replays and logins it has sent
    by then grow with the depth, one of each per level. *)
Theorem request_recurses_without_bound (method url : string)
    (payload : option dict) (w : World) (tok : string) :
  let c := client w in
  method ∈ ["GET"; "DELETE"; "POST"; "PUT"] →
  sendable method payload = true →
  authentication_method c = PASSWORD →
  ¬ (password c = None ∧ api_key c = None) →
  ACCESS_TOKEN c = Some (Some tok) → tok ≠ "" →
  authentication_retries c ≠ 3%Z →
  rejects_forever backend c method url payload →
  ∀ fuel : nat,
    ∃ w' new,
      request backend fuel method url payload w = (OutOfFuel, w')
      ∧ sent w' = (new ++ sent w)%list
      ∧ (fuel - 1 ≤ length (List.filter (is_request_to url) new))%nat
      ∧ (fuel - 1 ≤ length (List.filter is_login new))%nat.
Proof.
  intros c Hin Hs Hmethod Hpw Htoken Htok Hretries Hserver fuel.
  apply (request_loops c method url payload) with (tok := tok)
    (n := authentication_retries c); try assumption.
  - repeat (apply elem_of_cons in Hin as [->|Hin]; [reflexivity|]).
    now apply elem_of_nil in Hin.
  - subst c. destruct w as [cl st se fe lo]. cbn [client] in *.
    destruct cl. cbn in Htoken. subst. reflexivity.
Qed.

End Unbounded.

Lemma request_recurses_without_bound_witness :
  ∃ w' new,
    request (unauthorized orders_url) 40 "GET" orders_url None w_logged_in
    = (OutOfFuel, w')
    ∧ sent w' = (new ++ sent w_logged_in)%list
    ∧ (39 ≤ length (List.filter (is_request_to orders_url) new))%nat
    ∧ (39 ≤ length (List.filter is_login new))%nat.
Proof.
  apply (request_recurses_without_bound (unauthorized orders_url)
           "GET" orders_url None w_logged_in "old").
  - constructor.
  - reflexivity.
  - reflexivity.
  - intros [H _]. discriminate H.
  - reflexivity.
  - discriminate.
  - discriminate.
  - intros past tok. split; [reflexivity|].
    split; [discriminate|]. split; reflexivity.
Defined.

(** The same run, counted: with forty levels of calls the client has
    asked for the orders 39 times and logged in 39 times, and has neither
    an answer nor an exception to show for it. *)
Example request_out_of_fuel :
  let run := request (unauthorized orders_url) 40 "GET" orders_url None
               w_logged_in in
  fst run = OutOfFuel
  ∧ length (List.filter (is_request_to orders_url) (sent (snd run))) = 39%nat
  ∧ length (List.filter is_login (sent (snd run))) = 39%nat.
Proof.
  cbv zeta. repeat split; vm_compute; reflexivity.
Qed.

(** ** The retry counter *)

Lemma moves_refl (w : World) : moves w w.
Proof. exists []. split; [done|]. split; [auto | intros; lia]. Qed.

Lemma moves_trans (w1 w2 w3 : World) : moves w1 w2 → moves w2 w3 → moves w1 w3.
Proof.
  intros (n1 & L1 & B1 & Q1) (n2 & L2 & B2 & Q2).
  exists (n2 ++ n1)%list. split; [|split].
  - now rewrite L2, L1, app_assoc.
  - auto.
  - intros Hq.
    assert (quiet n1) by (intros r Hr; apply Hq, elem_of_app; auto).
    assert (quiet n2) by (intros r Hr; apply Hq, elem_of_app; auto).
    specialize (Q1 ltac:(done)). specialize (Q2 ltac:(done)). lia.
Qed.

(** A step that leaves the counter alone. *)
Lemma moves_same_retries (w w' : World) (new : list LogRecord) :
  log w' = (new ++ log w)%list → retries w' = retries w → moves w w'.
Proof.
  intros Hl Hr. exists new. rewrite Hr. split; [done|].
  split; [auto | intros; lia].
Qed.

Lemma respects_ret {A} (a : A) : respects (ret a).
Proof. intros w o w' [= <- <-]. apply moves_refl. Qed.

Lemma respects_raise {A} (e : exn) : respects (@raise A e).
Proof. intros w o w' [= <- <-]. apply moves_refl. Qed.

Lemma respects_out_of_fuel {A} : respects (@out_of_fuel A).
Proof. intros w o w' [= <- <-]. apply moves_refl. Qed.

Lemma respects_get_client : respects get_client.
Proof. intros w o w' [= <- <-]. apply moves_refl. Qed.

Lemma respects_logger (r : LogRecord) : respects (logger r).
Proof. intros w o w' [= <- <-]. now apply (moves_same_retries _ _ [r]). Qed.

Lemma respects_send (backend : Backend) (r : Request) :
  respects (send backend r).
Proof. intros w o w' [= <- <-]. now apply (moves_same_retries _ _ []). Qed.

Lemma respects_set_ACCESS_TOKEN (t : Py.attr string) :
  respects (modify (with_client (set_ACCESS_TOKEN t))).
Proof. intros w o w' [= <- <-]. now apply (moves_same_retries _ _ []). Qed.

Lemma respects_bind {A B} (m : M A) (k : A → M B) :
  respects m → (∀ a, respects (k a)) → respects (bind m k).
Proof.
  intros Hm Hk w o w'. unfold bind.
  destruct (m w) as [[a|e|] w1] eqn:E.
  - intros H. eapply moves_trans; [eapply Hm | eapply Hk]; eauto.
  - intros [= <- <-]. eapply Hm; eauto.
  - intros [= <- <-]. eapply Hm; eauto.
Qed.

Lemma respects_except {A} (m : M A)
    (h : option string → option Response → M A) :
  respects m → (∀ msg r, respects (h msg r)) →
  respects (except_AuthenticationError m h).
Proof.
  intros Hm Hh w o w'. unfold except_AuthenticationError.
  destruct (m w) as [[a|[]|] w1] eqn:E;
    try (intros [= <- <-]; eapply Hm; eauto).
  intros H. eapply moves_trans; [eapply Hm | eapply Hh]; eauto.
Qed.

(** The end of a successful [authenticate]: the success is logged, then
    the counter is reset. *)
Lemma respects_success (d : string) :
  respects (let! _ := logger (info_authenticated d) in
            let! _ := modify (with_client (set_authentication_retries 0)) in
            ret true).
Proof.
  intros w o w' [= <- <-]. exists [info_authenticated d].
  split; [done|]. split; [cbn; lia|].
  intros Hq. specialize (Hq (info_authenticated d)).
  discriminate Hq. now left.
Qed.

Ltac respects_tac :=
  repeat first
    [ apply respects_success
    | apply respects_ret
    | apply respects_raise
    | apply respects_out_of_fuel
    | apply respects_get_client
    | apply respects_logger
    | apply respects_send
    | apply respects_set_ACCESS_TOKEN
    | assumption
    | apply respects_except; [|intros ? ?]
    | apply respects_bind; [|intros ?]
    | match goal with
      | |- respects (if ?b then _ else _) => destruct b
      | |- respects (match ?x with _ => _ end) => destruct x
      | H : ∀ m u p, respects (_ m u p) |- respects _ => apply H
      end ].

Section RetryCounter.

Variable backend : Backend.

Lemma respects_token (authenticate : M bool) :
  respects authenticate → respects (token authenticate).
Proof. intros H. unfold token. respects_tac. Qed.

Lemma respects_headers (authenticate : M bool) :
  respects authenticate → respects (headers authenticate).
Proof.
  intros H. unfold headers. pose proof (respects_token _ H). respects_tac.
Qed.

Lemma respects_validate
    (request : string → string → option dict → M Response) :
  (∀ m u p, respects (request m u p)) → respects (validate request).
Proof. intros H. unfold validate, get. respects_tac. Qed.

(** What follows the increment in [authenticate]. *)
Lemma authenticate_cases (fuel : nat) (w : World) (o : outcome bool)
    (w' : World) :
  (∀ m u p, respects (request backend fuel m u p)) →
  authenticate backend (S fuel) w = (o, w') →
  (retries w = 3%Z
   ∧ o = Raise (ValueError "Max attends of authentication attempts exceeded")
   ∧ w' = w)
  ∨ (retries w ≠ 3%Z
     ∧ moves (with_client (set_authentication_retries (retries w + 1)) w) w'
     ∧ ∀ b, o = Ok b → retries w' = 0%Z).
Proof.
  intros IH. cbn [authenticate]. unfold bind at 1, get_client.
  fold (retries w).
  destruct (retries w =? 3)%Z eqn:E.
  - intros [= <- <-]. left. apply Z.eqb_eq in E. auto.
  - intros H. right. apply Z.eqb_neq in E. split; [done|]. unfold bind at 1, modify in H. split.
    + match type of H with
      | ?f ?w1 = _ => assert (Hr : respects f); [|exact (Hr _ _ _ H)]
      end.
      pose proof (respects_validate _ IH).
      respects_tac.
    + intros b ->.
      destruct (bool_decide _ && bool_decide _); [discriminate|].
      apply bind_Ok in H as (? & ? & _ & H).
      apply bind_Ok in H as (? & ? & _ & H).
      apply bind_Ok in H as (? & ? & _ & H).
      apply bind_Ok in H as (? & ? & _ & H).
      apply bind_Ok in H as (? & ? & H0 & H).
      injection H0 as <- <-. now injection H as <- <-.
Qed.

Lemma dispatch_respects (fuel : nat) :
  respects (authenticate backend fuel)
  ∧ ∀ m u p, respects (request backend fuel m u p).
Proof.
  induction fuel as [|fuel [IHa IHr]].
  - split; [|intros m u p]; apply respects_out_of_fuel.
  - split.
    + intros w o w' H.
      destruct (authenticate_cases _ _ _ _ IHr H)
        as [(E & -> & ->) | (E & Hm & _)]; [apply moves_refl|].
      eapply moves_trans; [|exact Hm].
      exists []. split; [done|]. unfold retries in *. cbn. split; intros; lia.
    + intros m u p. cbn [request].
      pose proof (respects_headers _ IHa). respects_tac.
Qed.

Lemma authenticate_counts (fuel : nat) (w : World) (o : outcome bool)
    (w' : World) :
  authenticate backend (S fuel) w = (o, w') →
  ((retries w <= 3)%Z → (retries w' <= 3)%Z)
  ∧ ((retries w = 3%Z
      ∧ o = Raise (ValueError "Max attends of authentication attempts exceeded")
      ∧ w' = w)
     ∨ (retries w ≠ 3%Z
        ∧ (∀ b, o = Ok b → retries w' = 0%Z)
        ∧ ∃ new, log w' = (new ++ log w)%list
                 ∧ (quiet new → (retries w + 1 <= retries w')%Z))).
Proof.
  intros H. split.
  - destruct (proj1 (dispatch_respects (S fuel)) _ _ _ H) as (? & _ & Hb & _).
    exact Hb.
  - destruct (authenticate_cases _ _ _ _ (proj2 (dispatch_respects fuel)) H)
      as [? | (E & (new & Hl & _ & Hq) & Hz)]; [now left|].
    right. split; [done|]. split; [done|]. exists new. split; [exact Hl|].
    intros Hn. specialize (Hq Hn). unfold retries in *. cbn in Hq. lia.
Qed.

(** C9: a call of [authenticate] that finds the counter at 3 raises the
    [ValueError] of the used-up retries and changes nothing; any other
    call increments the counter first, a call that returns leaves it at 0,
    and as long as no authentication goes through, the counter does not
    go down.  So after three calls that all raise, starting from a counter
    between 0 and 3 (a fresh client has 0) and with no authentication
    going through meanwhile, the counter is 3 and a fourth call raises
    that [ValueError] at once: the world, and with it the list of requests
    sent, is as it was. *)
Theorem authentication_retries_exhausted :
  (∀ fuel w o w',
     authenticate backend (S fuel) w = (o, w') →
     (retries w = 3%Z
      ∧ o = Raise (ValueError "Max attends of authentication attempts exceeded")
      ∧ w' = w)
     ∨ (retries w ≠ 3%Z
        ∧ (∀ b, o = Ok b → retries w' = 0%Z)
        ∧ ∃ new, log w' = (new ++ log w)%list
                 ∧ (quiet new → (retries w + 1 <= retries w')%Z)))
  ∧ (∀ f1 f2 f3 f4 w0 w1 w2 w3 e1 e2 e3,
       (0 <= retries w0 <= 3)%Z →
       authenticate backend f1 w0 = (Raise e1, w1) →
       authenticate backend f2 w1 = (Raise e2, w2) →
       authenticate backend f3 w2 = (Raise e3, w3) →
       (∀ new, log w3 = (new ++ log w0)%list → quiet new) →
       retries w3 = 3%Z
       ∧ authenticate backend (S f4) w3
         = (Raise (ValueError
                     "Max attends of authentication attempts exceeded"),
            w3)).
Proof.
  split; [intros fuel w o w' H; now apply authenticate_counts in H|].
  intros f1 f2 f3 f4 w0 w1 w2 w3 e1 e2 e3 H0 H1 H2 H3 Hquiet.
  destruct f1 as [|f1]; [discriminate|].
  destruct f2 as [|f2]; [discriminate|].
  destruct f3 as [|f3]; [discriminate|].
  apply authenticate_counts in H1 as [B1 C1].
  apply authenticate_counts in H2 as [B2 C2].
  apply authenticate_counts in H3 as [B3 C3].
  assert (Hlogs : ∃ n1 n2 n3,
            log w1 = (n1 ++ log w0)%list ∧ log w2 = (n2 ++ log w1)%list
            ∧ log w3 = (n3 ++ log w2)%list
            ∧ (quiet n1 → retries w0 ≠ 3%Z → (retries w0 + 1 <= retries w1)%Z)
            ∧ (quiet n2 → retries w1 ≠ 3%Z → (retries w1 + 1 <= retries w2)%Z)
            ∧ (quiet n3 → retries w2 ≠ 3%Z → (retries w2 + 1 <= retries w3)%Z)
            ∧ (retries w0 = 3%Z → retries w1 = 3%Z)
            ∧ (retries w1 = 3%Z → retries w2 = 3%Z)
            ∧ (retries w2 = 3%Z → retries w3 = 3%Z)).
  { assert (Hcase : ∀ (w w' : World) (o : outcome bool),
              retries w = 3%Z ∧ o = Raise (ValueError
                "Max attends of authentication attempts exceeded") ∧ w' = w
              ∨ retries w ≠ 3%Z ∧ (∀ b, o = Ok b → retries w' = 0%Z)
                ∧ (∃ new, log w' = (new ++ log w)%list
                          ∧ (quiet new → (retries w + 1 <= retries w')%Z)) →
              ∃ n, log w' = (n ++ log w)%list
                   ∧ (quiet n → retries w ≠ 3%Z →
                      (retries w + 1 <= retries w')%Z)
                   ∧ (retries w = 3%Z → retries w' = 3%Z)).
    { intros w w' o [(E & _ & ->) | (E & _ & n & Hl & Hq)].
      - exists []. repeat split; [done | done..].
      - exists n. repeat split; [done | auto | done]. }
    destruct (Hcase _ _ _ C1) as (n1 & L1 & Q1 & E1).
    destruct (Hcase _ _ _ C2) as (n2 & L2 & Q2 & E2).
    destruct (Hcase _ _ _ C3) as (n3 & L3 & Q3 & E3).
    exists n1, n2, n3. repeat split; assumption. }
  destruct Hlogs
    as (n1 & n2 & n3 & L1 & L2 & L3 & Q1 & Q2 & Q3 & E1 & E2 & E3).
  assert (Hq : quiet (n3 ++ n2 ++ n1)).
  { apply Hquiet. now rewrite L3, L2, L1, !app_assoc. }
  assert (quiet n1) by (intros r Hr; apply Hq; rewrite !elem_of_app; auto).
  assert (quiet n2) by (intros r Hr; apply Hq; rewrite !elem_of_app; auto).
  assert (quiet n3) by (intros r Hr; apply Hq; rewrite !elem_of_app; auto).
  assert (Hthree : retries w3 = 3%Z).
  { specialize (B1 ltac:(lia)). specialize (B2 B1). specialize (B3 B2).
    destruct (decide (retries w0 = 3%Z)) as [E0|N0]; [auto|].
    specialize (Q1 ltac:(done) N0).
    destruct (decide (retries w1 = 3%Z)) as [E1'|N1]; [auto|].
    specialize (Q2 ltac:(done) N1).
    destruct (decide (retries w2 = 3%Z)) as [E2'|N2]; [auto|].
    specialize (Q3 ltac:(done) N2). lia. }
  split; [exact Hthree|].
  cbn [authenticate]. unfold bind at 1, get_client.
  fold (retries w3). now rewrite Hthree.
Qed.

End RetryCounter.

Lemma authentication_retries_exhausted_witness :
  let w1 := snd (authenticate login_rejected 2 w_password) in
  let w2 := snd (authenticate login_rejected 2 w1) in
  let w3 := snd (authenticate login_rejected 2 w2) in
  retries w3 = 3%Z
  ∧ authenticate login_rejected 1 w3
    = (Raise (ValueError "Max attends of authentication attempts exceeded"),
       w3).
Proof.
  intros w1 w2 w3.
  apply (proj2 (authentication_retries_exhausted login_rejected)
           2%nat 2%nat 2%nat 0%nat w_password w1 w2 w3
           (AuthenticationError None (Some (response 401)))
           (AuthenticationError None (Some (response 401)))
           (AuthenticationError None (Some (response 401))));
    try reflexivity; [done|].
  intros new Hl. rewrite app_nil_r in Hl. subst new.
  intros r Hr. vm_compute in Hr.
  repeat (apply elem_of_cons in Hr as [->|Hr]; [reflexivity|]).
  now apply elem_of_nil in Hr.
Defined.

(** Three rejected logins, then the fourth call: three requests were
    sent, and the fourth call adds none. *)
Example fourth_call_sends_nothing :
  let w1 := snd (authenticate login_rejected 2 w_password) in
  let w2 := snd (authenticate login_rejected 2 w1) in
  let w3 := snd (authenticate login_rejected 2 w2) in
  length (sent w3) = 3%nat
  ∧ sent (snd (authenticate login_rejected 2 w3)) = sent w3.
Proof. cbv zeta. split; vm_compute; reflexivity. Qed.

(** ** Fuel

    More fuel does not change a run that came to an end. *)

Lemma extends_refl {A} (m : M A) : extends m m.
Proof. now intros w o w' H _. Qed.

Lemma extends_bind {A B} (m m' : M A) (k k' : A → M B) :
  extends m m' → (∀ a, extends (k a) (k' a)) →
  extends (bind m k) (bind m' k').
Proof.
  intros Hm Hk w o w'. unfold bind.
  destruct (m w) as [[a|e|] w1] eqn:E.
  - rewrite (Hm _ _ _ E) by done. apply Hk.
  - rewrite (Hm _ _ _ E) by done. auto.
  - now intros [= <- <-] ?.
Qed.

Lemma extends_except {A} (m m' : M A)
    (h : option string → option Response → M A) :
  extends m m' →
  extends (except_AuthenticationError m h) (except_AuthenticationError m' h).
Proof.
  intros Hm w o w'. unfold except_AuthenticationError.
  destruct (m w) as [[a|e|] w1] eqn:E.
  - rewrite (Hm _ _ _ E) by done. auto.
  - rewrite (Hm _ _ _ E) by done. auto.
  - now intros [= <- <-] ?.
Qed.

Ltac extends_tac :=
  repeat first
    [ assumption
    | apply extends_refl
    | apply extends_except
    | apply extends_bind; [|intros ?]
    | match goal with
      | |- extends (if ?b then _ else _) _ => destruct b
      | |- extends (match ?x with _ => _ end) _ => destruct x
      | H : ∀ m u p, extends (_ m u p) _ |- extends _ _ => apply H
      end ].

Section Fuel.

Variable backend : Backend.

Lemma extends_token (a a' : M bool) :
  extends a a' → extends (token a) (token a').
Proof. intros H. unfold token. extends_tac. Qed.

Lemma extends_headers (a a' : M bool) :
  extends a a' → extends (headers a) (headers a').
Proof.
  intros H. unfold headers. pose proof (extends_token _ _ H). extends_tac.
Qed.

Lemma extends_validate
    (r r' : string → string → option dict → M Response) :
  (∀ m u p, extends (r m u p) (r' m u p)) →
  extends (validate r) (validate r').
Proof. intros H. unfold validate, get. extends_tac. Qed.

Lemma more_fuel (fuel : nat) :
  extends (authenticate backend fuel) (authenticate backend (S fuel))
  ∧ ∀ m u p, extends (request backend fuel m u p)
                     (request backend (S fuel) m u p).
Proof.
  induction fuel as [|fuel [IHa IHr]].
  - split; [|intros m u p]; now intros w o w' [= <- <-] ?.
  - pose proof (extends_validate _ _ IHr).
    pose proof (extends_headers _ _ IHa).
    split; [|intros m u p].
    + cbn [authenticate]. extends_tac.
    + cbn [request]. extends_tac.
Qed.

(** A run of [authenticate] or [request] that ends with some fuel ends the
    same way with any larger amount. *)
Lemma authenticate_fuel (fuel extra : nat) (w w' : World) (o : outcome bool) :
  authenticate backend fuel w = (o, w') → o ≠ OutOfFuel →
  authenticate backend (extra + fuel) w = (o, w').
Proof.
  intros H Ho. induction extra as [|extra IH]; [exact H|].
  now apply (proj1 (more_fuel (extra + fuel))).
Qed.

Lemma request_fuel (fuel extra : nat) (method url : string)
    (payload : option dict) (w w' : World) (o : outcome Response) :
  request backend fuel method url payload w = (o, w') → o ≠ OutOfFuel →
  request backend (extra + fuel) method url payload w = (o, w').
Proof.
  intros H Ho. induction extra as [|extra IH]; [exact H|].
  now apply (proj2 (more_fuel (extra + fuel))).
Qed.

End Fuel.
